(** * abbs-meta-collector: a shallow embedding of the package scanner,
    the commit index and the package metadata store, with proofs about
    them. *)

From stdpp Require Import base gmap strings list pretty.
From Stdlib Require Import Ascii.
From Stdlib Require Import Sorted Permutation.

Open Scope string_scope.
#[local] Set Warnings "-abstract-large-number".

(* ------------------------------------------------------------------ *)
(** ** Results (Rust's [Result]) *)

Inductive result (A E : Type) : Type :=
| Ok (a : A)
| Err (e : E).
Arguments Ok {A E} a.
Arguments Err {A E} e.

(* ------------------------------------------------------------------ *)
(** ** Paths (std::path::Path / PathBuf)

    A relative Git path is the list of its components; [""] as a Rust
    path is the empty list. *)

Abbreviation path := (list string).

(** [Path::to_str]: the components joined with ["/"]. *)
Definition path_to_str (p : path) : string := String.concat "/" p.

(** [Path::file_name]. *)
Definition file_name (p : path) : option string := last p.

(** [Path::parent]: [Some ""] for a one-component path, [None] for [""]. *)
Definition parent (p : path) : option path :=
  match rev p with
  | [] => None
  | _ :: r => Some (rev r)
  end.

Fixpoint ancestors_rev (rp : list string) : list path :=
  rev rp :: match rp with
            | [] => []
            | _ :: rp' => ancestors_rev rp'
            end.

(** [Path::ancestors]: the path itself, then each parent, down to [""]. *)
Definition ancestors (p : path) : list path := ancestors_rev (rev p).

(** [path.iter().nth_back(n)]. *)
Definition nth_back (n : nat) (p : path) : option string := rev p !! n.

(** [PathBuf::push] of a relative path. *)
Definition push (p q : path) : path := app p q.

(* ------------------------------------------------------------------ *)
(** ** UTF-8 validation ([String::from_utf8])

    A blob is a byte string (Rocq's [string] is a list of bytes).
    [from_utf8] accepts exactly the well-formed UTF-8 sequences. *)

Definition byte_in (a : ascii) (lo hi : nat) : bool :=
  Nat.leb lo (nat_of_ascii a) && Nat.leb (nat_of_ascii a) hi.

Definition cont (a : ascii) : bool := byte_in a 128 191.

Fixpoint utf8_valid (s : string) : bool :=
  match s with
  | EmptyString => true
  | String a r =>
      if byte_in a 0 127 then utf8_valid r
      else if byte_in a 194 223 then
        match r with
        | String b r' => cont b && utf8_valid r'
        | _ => false
        end
      else if byte_in a 224 244 then
        match r with
        | String b (String c r') =>
            let n := nat_of_ascii a in
            let ok_b :=
              if Nat.eqb n 224 then byte_in b 160 191
              else if Nat.eqb n 237 then byte_in b 128 159
              else if Nat.eqb n 240 then byte_in b 144 191
              else if Nat.eqb n 244 then byte_in b 128 143
              else cont b in
            if Nat.leb n 239 then ok_b && cont c && utf8_valid r'
            else
              match r' with
              | String d r'' => ok_b && cont c && cont d && utf8_valid r''
              | _ => false
              end
        | _ => false
        end
      else false
  end.

Definition from_utf8 (bytes : string) : option string :=
  if utf8_valid bytes then Some bytes else None.

(* ------------------------------------------------------------------ *)
(** ** Git snapshot (git2::Repository, Tree, Blob)

    A commit's tree is the flat list of its entries, each with its full
    path and its kind.  [get_path] is [git_tree_entry_bypath], which
    refuses the empty path. *)

Abbreviation oid := string.

Inductive entry : Type :=
| Blob (content : string)
| TreeEntry.

Abbreviation gtree := (list (path * entry)).

(** A commit object: its tree and the fields [get_package_changes] reads
    ([message()], [committer().name()] and [.email()] are [None] when not
    valid UTF-8). *)
Record CommitObj : Type := {
  c_tree : gtree;
  c_parents : list oid;
  c_message : option string;
  c_committer_name : option string;
  c_committer_email : option string;
  c_time : Z
}.

Record Repository : Type := {
  repo_commits : list (oid * CommitObj);
  repo_tree : string;
  repo_branch : string
}.

Fixpoint assoc {K V : Type} `{EqDecision K} (k : K) (l : list (K * V)) : option V :=
  match l with
  | [] => None
  | (k', v) :: l' => if decide (k = k') then Some v else assoc k l'
  end.

Definition find_commit (repo : Repository) (c : oid) : option CommitObj :=
  assoc c (repo_commits repo).

Definition get_path (t : gtree) (p : path) : option entry :=
  match p with
  | [] => None
  | _ => assoc p t
  end.

(** [Repository::read_file]: commit, tree entry, blob, UTF-8. *)
Definition read_file (repo : Repository) (p : path) (c : oid) : option string :=
  commit ← find_commit repo c;
  e ← get_path (c_tree commit) p;
  match e with
  | Blob b => from_utf8 b
  | TreeEntry => None
  end.

(* ------------------------------------------------------------------ *)
(** ** Errors recorded in the package database (db::abbs) *)

Inductive ErrorType := EParse | EPackage.

Definition error_type_to_string (e : ErrorType) : string :=
  match e with EParse => "parse" | EPackage => "package" end.

Record PackageError : Type := {
  pe_package : string;
  pe_path : string;
  pe_message : string;
  pe_err_type : ErrorType;
  pe_line : option nat;
  pe_col : option nat
}.

(* ------------------------------------------------------------------ *)
(** ** External collaborators: the APML parser and the Package builder *)

Abbreviation Context := (gmap string string).

Record ParseError : Type := { perr_line : nat; perr_col : nat; perr_msg : string }.

(** [abbs_meta_apml::parse(source, &mut ctx)]: it updates the context and
    returns [Ok(())] or the list of errors. *)
Class ApmlParser : Type := {
  apml_parse : string -> Context -> Context * result unit (list ParseError);
  parse_error_display : ParseError -> string
}.

(** [HashMap<arch, Vec<(dependency, relop, version)>>], in iteration order. *)
Abbreviation PkgDep := (list (string * list (string * option string * option string))).

Record Package : Type := {
  pkg_name : string;
  pkg_version : string;
  pkg_release : nat;
  pkg_epoch : nat;
  pkg_category : string;
  pkg_section : string;
  pkg_pkg_section : string;
  pkg_directory : string;
  pkg_description : string;
  pkg_spec_path : string;
  pkg_dependencies : PkgDep;
  pkg_build_dependencies : PkgDep;
  pkg_package_suggests : PkgDep;
  pkg_package_provides : PkgDep;
  pkg_package_recommands : PkgDep;
  pkg_package_replaces : PkgDep;
  pkg_package_breaks : PkgDep;
  pkg_package_configs : PkgDep
}.

(** [abbs_meta_tree::Package::from(&ctx, spec_path)]; the error is kept
    as its [to_string()]. *)
Class PackageBuilder : Type := {
  package_from : Context -> path -> result Package string
}.

(* ------------------------------------------------------------------ *)
(** ** package.rs *)

Section PackageParser.
Context `{ApmlParser} `{PackageBuilder}.

Definition spec_decorator (c : Context) : Context :=
  let c := match c !! "VER" with
           | Some ver => <["PKGVER" := ver]> (delete "VER" c)
           | None => c
           end in
  match c !! "REL" with
  | Some rel => <["PKGREL" := rel]> (delete "REL" c)
  | None => c
  end.

Definition parse_errors (pkg_name : string) (p : path)
    (r : result unit (list ParseError)) : list PackageError :=
  match r with
  | Ok _ => []
  | Err es =>
      map (fun e => {| pe_package := pkg_name; pe_path := path_to_str p;
                       pe_message := parse_error_display e; pe_err_type := EParse;
                       pe_line := Some (perr_line e); pe_col := Some (perr_col e) |}) es
  end.

Definition parse_spec_and_defines (repo : Repository) (commit : oid)
    (spec_path defines_path : path) : option (Context * list PackageError) :=
  spec ← read_file repo spec_path commit;
  defines ← read_file repo defines_path commit;
  let context : Context := ∅ in
  pkg_name ← nth_back 2 defines_path;
  let '(context, r1) := apml_parse spec context in
  let errors := parse_errors pkg_name spec_path r1 in
  let context := spec_decorator context in
  let '(context, r2) := apml_parse defines context in
  let errors := app errors (parse_errors pkg_name defines_path r2) in
  Some (context, errors).

Definition scan_package (repo : Repository) (commit : oid)
    (spec_path defines_path : path)
    : option (Package * Context) * list PackageError :=
  match parse_spec_and_defines repo commit spec_path defines_path with
  | None => (None, [])
  | Some (context, errors) =>
      match package_from context spec_path with
      | Ok pkg => (Some (pkg, context), errors)
      | Err e =>
          match nth_back 2 defines_path with
          | None => (None, [])
          | Some pkg_name =>
              (* extra-doc/jade/autobuild/defines -> extra-doc/jade *)
              match ancestors defines_path !! 2 with
              | None => (None, [])
              | Some p =>
                  (None, app errors [{| pe_package := pkg_name; pe_path := path_to_str p;
                                       pe_message := e; pe_err_type := EPackage;
                                       pe_line := None; pe_col := None |}])
              end
          end
      end
  end.

End PackageParser.

(* ------------------------------------------------------------------ *)
(** ** Path classifier (package.rs) *)

Fixpoint strip_prefix (pre q : path) : option path :=
  match pre, q with
  | [], _ => Some q
  | a :: pre', b :: q' => if decide (a = b) then strip_prefix pre' q' else None
  | _ :: _, [] => None
  end.

(** [pkg_tree.walk(PostOrder, ..)] on the subtree at [d]: every entry
    strictly below [d], as [d] pushed with the entry's relative path. The
    walk's visiting order is that of the entry list. *)
Definition walk_subtree (t : gtree) (d : path) : list path :=
  omap (fun '(q, _) =>
          match strip_prefix d q with
          | Some ((_ :: _) as rel) => Some (push d rel)
          | _ => None
          end) t.

(** [Iterator::find_map]. *)
Fixpoint find_map {A B : Type} (f : A -> option B) (l : list A) : option B :=
  match l with
  | [] => None
  | x :: l' => match f x with Some y => Some y | None => find_map f l' end
  end.

Definition spec_path_to_defines_path (repo : Repository) (commit : oid)
    (spec_path : path) : result (list path) string :=
  match find_commit repo commit with
  | None => Err "commit not found"
  | Some c =>
      let tree := c_tree c in
      match parent spec_path with
      | None => Err ("The path " ++ path_to_str spec_path ++ " doesn't have parent")
      | Some pkg_path =>
          match get_path tree pkg_path with
          | None => Err "the path does not exist in the given tree"
          | Some (Blob _) => Err "the requested type does not match the type in the ODB"
          | Some TreeEntry =>
              Ok (filter (fun q => file_name q = Some "defines") (walk_subtree tree pkg_path))
          end
      end
  end.

Definition path_to_defines_path (repo : Repository) (commit : oid) (p : path)
    : result (list path) string :=
  match file_name p with
  | None => Err ("failed to convert " ++ path_to_str p ++ " to str")
  | Some fname =>
      if decide (fname = "defines") then Ok [p]
      else if decide (fname = "spec") then spec_path_to_defines_path repo commit p
      else
        match find_commit repo commit with
        | None => Err "commit not found"
        | Some c =>
            let tree := c_tree c in
            match find_map
                    (fun a => let q := push a ["defines"] in
                              match get_path tree q with
                              | Some _ => Some [q]
                              | None => None
                              end) (ancestors p) with
            | Some r => Ok r
            | None => Err ("failed to find defines path at the ancestors of " ++ path_to_str p)
            end
        end
  end.

(* ------------------------------------------------------------------ *)
(** ** Commit index: histories (db/commits.rs) *)

Record HistoryRow : Type := {
  h_id : nat;
  h_tree : string;
  h_branch : string;
  h_commit_id : string;
  h_timestamp : Z
}.

Definition is_hex (a : ascii) : bool :=
  byte_in a 48 57 || byte_in a 65 70 || byte_in a 97 102.

Fixpoint all_hex (s : string) : bool :=
  match s with
  | EmptyString => true
  | String a r => is_hex a && all_hex r
  end.

(** [Oid::from_str] ([git_oid_fromstrn]): at most 40 hex digits; the
    oid is kept as its text (the zero padding of short ids is left out). *)
Definition oid_from_str (s : string) : result oid string :=
  if Nat.leb 1 (String.length s) && Nat.leb (String.length s) 40 && all_hex s
  then Ok s else Err "unable to parse OID".

(** [ORDER BY timestamp ASC]: a stable sort, rows with equal timestamps
    stay in table (rowid) order. *)
Fixpoint insert_by_timestamp (h : HistoryRow) (l : list HistoryRow) : list HistoryRow :=
  match l with
  | [] => [h]
  | x :: l' => if (h_timestamp h <? h_timestamp x)%Z then h :: l
               else x :: insert_by_timestamp h l'
  end.

Definition order_by_asc_timestamp (l : list HistoryRow) : list HistoryRow :=
  fold_left (fun acc h => insert_by_timestamp h acc) l [].

Definition get_branch_histories (histories : list HistoryRow) (tree branch : string)
    : list HistoryRow :=
  order_by_asc_timestamp
    (filter (fun h => h_tree h = tree /\ h_branch h = branch) histories).

(** The diff window [(from, to)] chosen at the top of
    [get_updated_packages]. *)
Definition get_updated_packages_window (histories : list HistoryRow) (tree branch : string)
    : result (option oid * oid) string :=
  let histories := get_branch_histories histories tree branch in
  (* from old to new *)
  match histories with
  | [] => Err ("please update branch " ++ branch)
  | [h0] =>
      match oid_from_str (h_commit_id h0) with
      | Ok t => Ok (None, t)
      | Err e => Err e
      end
  | h0 :: h1 :: _ =>
      match oid_from_str (h_commit_id h1) with
      | Err e => Err e
      | Ok f =>
          match oid_from_str (h_commit_id h0) with
          | Ok t => Ok (Some f, t)
          | Err e => Err e
          end
      end
  end.

(* ------------------------------------------------------------------ *)
(** ** Change list of a package ([get_package_changes]) *)

(** [str::find] with a string pattern: the first byte offset of the
    needle. *)
Fixpoint str_find (needle hay : string) : option nat :=
  if String.prefix needle hay then Some 0
  else match hay with
       | EmptyString => None
       | String _ r => S <$> str_find needle r
       end.

Definition urgency_of (message : string) : string :=
  match str_find "security" message with
  | Some _ => "high"
  | None => "medium"
  end.

Record Change : Type := {
  ch_pkg_name : string;
  ch_version : string;
  ch_branch : string;
  ch_urgency : string;
  ch_message : string;
  ch_githash : string;
  ch_maintainer_name : string;
  ch_maintainer_email : string;
  ch_timestamp : Z
}.

(** [rows] is what [get_commits_by_packages] returns:
    [(commit_id, pkg_version, spec_path, defines_path)], newest first. *)
Definition get_package_changes (repo : Repository) (pkg_name : string)
    (rows : list (oid * string * string * string)) : list Change :=
  omap (fun '(commit_id, pkg_version, _, _) =>
          commit ← find_commit repo commit_id;
          message ← c_message commit;
          maintainer_name ← c_committer_name commit;
          maintainer_email ← c_committer_email commit;
          Some {| ch_pkg_name := pkg_name; ch_version := pkg_version;
                  ch_branch := repo_branch repo; ch_urgency := urgency_of message;
                  ch_message := message; ch_githash := commit_id;
                  ch_maintainer_name := maintainer_name;
                  ch_maintainer_email := maintainer_email;
                  ch_timestamp := c_time commit |}) rows.

(* ------------------------------------------------------------------ *)
(** ** Package metadata store (db/abbs.rs) *)

Record PackageRow := {
  p_name : string; p_tree : string; p_category : string; p_section : string;
  p_pkg_section : string; p_directory : string; p_description : string;
  p_spec_path : string
}.

Record DuplicateRow := {
  d_package : string; d_tree : string; d_category : string; d_section : string;
  d_directory : string
}.

Record FtsRow := { f_name : string; f_description : string }.

Record ChangeRow := {
  pc_package : string; pc_githash : string; pc_version : string; pc_branch : string;
  pc_urgency : string; pc_message : string; pc_maintainer_name : string;
  pc_maintainer_email : string; pc_timestamp : Z; pc_tree : string
}.

Record VersionRow := {
  v_package : string; v_branch : string; v_architecture : string; v_version : string;
  v_release : option string; v_epoch : option string; v_commit_time : Z;
  v_committer : string; v_githash : string
}.

Record SpecRow := { s_package : string; s_key : string; s_value : string }.

Record DependencyRow := {
  dp_package : string; dp_dependency : string; dp_relop : option string;
  dp_version : option string; dp_architecture : string; dp_relationship : string
}.

Record ErrorRow := {
  er_id : nat; er_package : string; er_err_type : string; er_message : string;
  er_path : string; er_tree : string; er_branch : string;
  er_line : option nat; er_col : option nat
}.

Record TestingRow := {
  pt_package : string; pt_tree : string; pt_branch : string; pt_version : string;
  pt_spec_path : string; pt_defines_path : string; pt_commit : string
}.

Record AbbsTables := {
  packages : list PackageRow;
  package_duplicate : list DuplicateRow;
  fts_packages : list FtsRow;
  package_changes : list ChangeRow;
  package_versions : list VersionRow;
  package_spec : list SpecRow;
  package_dependencies : list DependencyRow;
  package_errors : list ErrorRow;
  package_testing : list TestingRow
}.

(** [AbbsDb] with its connection replaced by the tables it holds. *)
Record AbbsDb := { db_tree : string; db_branch : string }.

(** Row-level SQL operations. *)
Section Rows.
Context {R K : Type} `{EqDecision K}.

(** [INSERT .. ON CONFLICT (key) DO UPDATE]: the row with the same key is
    overwritten in place, otherwise the row is appended. *)
Definition upsert (key : R -> K) (r : R) (tbl : list R) : list R :=
  if existsb (fun x => bool_decide (key x = key r)) tbl
  then map (fun x => if decide (key x = key r) then r else x) tbl
  else tbl ++ [r].

(** [INSERT OR IGNORE]. *)
Definition insert_or_ignore (key : R -> K) (r : R) (tbl : list R) : list R :=
  if existsb (fun x => bool_decide (key x = key r)) tbl then tbl else tbl ++ [r].

(** [DELETE .. WHERE p]. *)
Definition delete_where (p : R -> bool) (tbl : list R) : list R :=
  filter (fun x => p x = false) tbl.

Definition find_one (p : R -> bool) (tbl : list R) : option R :=
  find p tbl.

End Rows.

Definition package_key (r : PackageRow) := p_name r.
Definition duplicate_key (r : DuplicateRow) :=
  (d_package r, d_tree r, d_category r, d_section r, d_directory r).
Definition fts_key (r : FtsRow) := f_name r.
Definition change_key (r : ChangeRow) := (pc_package r, pc_githash r, pc_branch r, pc_tree r).
Definition version_key (r : VersionRow) := (v_package r, v_branch r, v_architecture r).
Definition spec_key (r : SpecRow) := (s_package r, s_key r).
Definition dependency_key (r : DependencyRow) :=
  (dp_package r, dp_dependency r, dp_architecture r, dp_relationship r).
Definition testing_key (r : TestingRow) := (pt_package r, pt_tree r, pt_branch r).

(** A transaction body: a state and error monad over the tables. *)
Definition DbM (A : Type) := AbbsTables -> result (A * AbbsTables) string.

Definition retM {A} (a : A) : DbM A := fun st => Ok (a, st).
Definition bindM {A B} (m : DbM A) (k : A -> DbM B) : DbM B :=
  fun st => match m st with Ok (a, st') => k a st' | Err e => Err e end.
Definition failM {A} (e : string) : DbM A := fun _ => Err e.
Definition getM : DbM AbbsTables := fun st => Ok (st, st).
Definition putM (st : AbbsTables) : DbM unit := fun _ => Ok (tt, st).

Notation "x <-- m ;; k" := (bindM m (fun x => k)) (at level 100, m at next level, right associativity).
Notation "m ;;; k" := (bindM m (fun _ => k)) (at level 100, right associativity).

Definition set_packages f (t : AbbsTables) :=
  {| packages := f (packages t); package_duplicate := package_duplicate t;
     fts_packages := fts_packages t; package_changes := package_changes t;
     package_versions := package_versions t; package_spec := package_spec t;
     package_dependencies := package_dependencies t; package_errors := package_errors t;
     package_testing := package_testing t |}.
Definition set_duplicate f (t : AbbsTables) :=
  {| packages := packages t; package_duplicate := f (package_duplicate t);
     fts_packages := fts_packages t; package_changes := package_changes t;
     package_versions := package_versions t; package_spec := package_spec t;
     package_dependencies := package_dependencies t; package_errors := package_errors t;
     package_testing := package_testing t |}.
Definition set_fts f (t : AbbsTables) :=
  {| packages := packages t; package_duplicate := package_duplicate t;
     fts_packages := f (fts_packages t); package_changes := package_changes t;
     package_versions := package_versions t; package_spec := package_spec t;
     package_dependencies := package_dependencies t; package_errors := package_errors t;
     package_testing := package_testing t |}.
Definition set_changes f (t : AbbsTables) :=
  {| packages := packages t; package_duplicate := package_duplicate t;
     fts_packages := fts_packages t; package_changes := f (package_changes t);
     package_versions := package_versions t; package_spec := package_spec t;
     package_dependencies := package_dependencies t; package_errors := package_errors t;
     package_testing := package_testing t |}.
Definition set_versions f (t : AbbsTables) :=
  {| packages := packages t; package_duplicate := package_duplicate t;
     fts_packages := fts_packages t; package_changes := package_changes t;
     package_versions := f (package_versions t); package_spec := package_spec t;
     package_dependencies := package_dependencies t; package_errors := package_errors t;
     package_testing := package_testing t |}.
Definition set_spec f (t : AbbsTables) :=
  {| packages := packages t; package_duplicate := package_duplicate t;
     fts_packages := fts_packages t; package_changes := package_changes t;
     package_versions := package_versions t; package_spec := f (package_spec t);
     package_dependencies := package_dependencies t; package_errors := package_errors t;
     package_testing := package_testing t |}.
Definition set_dependencies f (t : AbbsTables) :=
  {| packages := packages t; package_duplicate := package_duplicate t;
     fts_packages := fts_packages t; package_changes := package_changes t;
     package_versions := package_versions t; package_spec := package_spec t;
     package_dependencies := f (package_dependencies t); package_errors := package_errors t;
     package_testing := package_testing t |}.
Definition set_errors f (t : AbbsTables) :=
  {| packages := packages t; package_duplicate := package_duplicate t;
     fts_packages := fts_packages t; package_changes := package_changes t;
     package_versions := package_versions t; package_spec := package_spec t;
     package_dependencies := package_dependencies t; package_errors := f (package_errors t);
     package_testing := package_testing t |}.
Definition set_testing f (t : AbbsTables) :=
  {| packages := packages t; package_duplicate := package_duplicate t;
     fts_packages := fts_packages t; package_changes := package_changes t;
     package_versions := package_versions t; package_spec := package_spec t;
     package_dependencies := package_dependencies t; package_errors := package_errors t;
     package_testing := f (package_testing t) |}.

Definition modifyM (f : AbbsTables -> AbbsTables) : DbM unit :=
  fun st => Ok (tt, f st).

(** [replace_many(rows).exec(db)]: one multi-row insert; an insert of no
    rows is rejected by the database layer. *)
Definition replace_many {R} (set : (list R -> list R) -> AbbsTables -> AbbsTables)
    (ins : R -> list R -> list R) (rows : list R) : DbM unit :=
  match rows with
  | [] => failM "None of the records are inserted"
  | _ => modifyM (set (fun tbl => fold_left (fun acc r => ins r acc) rows tbl))
  end.

(** [txn.commit()] on success; dropping [txn] on an early return rolls it
    back. *)
Definition transaction {A} (body : DbM A) (st : AbbsTables) : result A string * AbbsTables :=
  match body st with
  | Ok (a, st') => (Ok a, st')
  | Err e => (Err e, st)
  end.

(** SQLite's rowid for an [id: NotSet] insert: one past the largest. *)
Definition next_error_id (tbl : list ErrorRow) : nat :=
  S (fold_left (fun m r => Nat.max m (er_id r)) tbl 0).

Definition insert_error_row (r : ErrorRow) (tbl : list ErrorRow) : list ErrorRow :=
  tbl ++ [{| er_id := next_error_id tbl; er_package := er_package r;
             er_err_type := er_err_type r; er_message := er_message r; er_path := er_path r;
             er_tree := er_tree r; er_branch := er_branch r; er_line := er_line r;
             er_col := er_col r |}].

Definition Meta := (Package * Context * list PackageError)%type.

Definition update_duplicate (pkg : Package) (existing : PackageRow) (tree : string) : DbM unit :=
  modifyM (set_duplicate (insert_or_ignore duplicate_key
    {| d_package := pkg_name pkg; d_tree := tree; d_category := pkg_category pkg;
       d_section := pkg_section pkg; d_directory := pkg_directory pkg |}));;;
  modifyM (set_duplicate (insert_or_ignore duplicate_key
    {| d_package := pkg_name pkg; d_tree := p_tree existing;
       d_category := p_category existing; d_section := p_section existing;
       d_directory := p_directory existing |})).

Definition add_dependencies (pkgdep : PkgDep) (relationship pkg_name : string) : DbM unit :=
  modifyM (set_dependencies (fun tbl =>
    fold_left (fun acc '(architecture, v) =>
      let architecture := if decide (architecture = "default") then "" else architecture in
      fold_left (fun acc '(dependency, relop, version) =>
        upsert dependency_key
          {| dp_package := pkg_name; dp_dependency := dependency; dp_relop := relop;
             dp_version := version; dp_architecture := architecture;
             dp_relationship := relationship |} acc) v acc) pkgdep tbl)).

Definition nonzero_to_string (x : nat) : option string :=
  if Nat.eqb x 0 then None else Some (pretty (N.of_nat x)).

Definition add_package_txn (self : AbbsDb) (pkg_meta : Meta) (pkg_changes : list Change)
    : DbM unit :=
  let '(pkg, context, errors) := pkg_meta in
  match pkg_changes with
  | [] => failM "cannot find changes of package, please update commit database"
  | first :: _ =>
  st <-- getM;;
  let existing := find_one (fun r => bool_decide (p_name r = pkg_name pkg)) (packages st) in
  match existing with
  | Some existing =>
      (if decide (p_tree existing <> db_tree self)
       then update_duplicate pkg existing (db_tree self) else retM tt);;;
      (if decide ((pkg_category pkg, pkg_section pkg, pkg_directory pkg)
                  <> (p_category existing, p_section existing, p_directory existing))
       then update_duplicate pkg existing (db_tree self) else retM tt)
  | None => retM tt
  end;;;
  modifyM (set_packages (upsert package_key
    {| p_name := pkg_name pkg; p_tree := db_tree self; p_category := pkg_category pkg;
       p_section := pkg_section pkg; p_pkg_section := pkg_pkg_section pkg;
       p_directory := pkg_directory pkg; p_description := pkg_description pkg;
       p_spec_path := pkg_spec_path pkg |}));;;
  st <-- getM;;
  let res := find_one (fun r => bool_decide (f_name r = pkg_name pkg)) (fts_packages st) in
  let model := {| f_name := pkg_name pkg; f_description := pkg_description pkg |} in
  match res with
  | Some res =>
      if decide (f_description res <> pkg_description pkg) then
        modifyM (set_fts (delete_where (fun r => bool_decide (f_name r = f_name res))));;;
        modifyM (set_fts (upsert fts_key model))
      else retM tt
  | None => modifyM (set_fts (upsert fts_key model))
  end;;;
  replace_many set_changes (upsert change_key)
    (map (fun change =>
       {| pc_package := ch_pkg_name change; pc_githash := ch_githash change;
          pc_version := ch_version change; pc_branch := ch_branch change;
          pc_urgency := ch_urgency change; pc_message := ch_message change;
          pc_maintainer_name := ch_maintainer_name change;
          pc_maintainer_email := ch_maintainer_email change;
          pc_timestamp := ch_timestamp change; pc_tree := db_tree self |}) pkg_changes);;;
  modifyM (set_versions (upsert version_key
    {| v_package := pkg_name pkg; v_branch := db_branch self; v_architecture := "";
       v_version := pkg_version pkg; v_release := nonzero_to_string (pkg_release pkg);
       v_epoch := nonzero_to_string (pkg_epoch pkg); v_commit_time := ch_timestamp first;
       v_committer := ch_maintainer_name first ++ " <" ++ ch_maintainer_email first ++ ">";
       v_githash := ch_githash first |}));;;
  modifyM (set_spec (delete_where (fun r => bool_decide (s_package r = pkg_name pkg))));;;
  replace_many set_spec (upsert spec_key)
    (map (fun '(k, v) => {| s_package := pkg_name pkg; s_key := k; s_value := v |})
       (map_to_list context));;;
  modifyM (set_dependencies
    (delete_where (fun r => bool_decide (dp_package r = pkg_name pkg))));;;
  add_dependencies (pkg_dependencies pkg) "PKGDEP" (pkg_name pkg);;;
  add_dependencies (pkg_build_dependencies pkg) "BUILDDEP" (pkg_name pkg);;;
  add_dependencies (pkg_package_suggests pkg) "PKGSUG" (pkg_name pkg);;;
  add_dependencies (pkg_package_provides pkg) "PKGPROV" (pkg_name pkg);;;
  add_dependencies (pkg_package_recommands pkg) "PKGRECOM" (pkg_name pkg);;;
  add_dependencies (pkg_package_replaces pkg) "PKGREP" (pkg_name pkg);;;
  add_dependencies (pkg_package_breaks pkg) "PKGBREAK" (pkg_name pkg);;;
  add_dependencies (pkg_package_configs pkg) "PKGCONFIG" (pkg_name pkg);;;
  (* package_errors *)
  match errors with
  | [] => retM tt
  | _ =>
      replace_many set_errors insert_error_row
        (map (fun e => {| er_id := 0; er_package := pe_package e;
                          er_err_type := error_type_to_string (pe_err_type e);
                          er_message := pe_message e; er_path := pe_path e;
                          er_tree := db_tree self; er_branch := db_branch self;
                          er_line := pe_line e; er_col := pe_col e |}) errors)
  end
  end.

Definition add_package (self : AbbsDb) (pkg_meta : Meta) (pkg_changes : list Change)
    (st : AbbsTables) : result unit string * AbbsTables :=
  transaction (add_package_txn self pkg_meta pkg_changes) st.

(* ------------------------------------------------------------------ *)
(** ** Testing view ([update_testing_branch]) *)

Record CommitInfo := {
  ci_commit_id : oid; ci_commit_time : Z; ci_pkg_name : string;
  ci_pkg_version : string; ci_defines_path : string; ci_spec_path : string
}.

Definition ok_opt {A E} (r : result A E) : option A :=
  match r with Ok a => Some a | Err _ => None end.

(** [db_order]: the testing order of the commit currently stored for the
    package, [100000] when there is no row or its commit is not in the
    testing order map. *)
Definition db_order (testing : gmap oid nat) (tree branch : string)
    (tbl : list TestingRow) (info : CommitInfo) : nat :=
  default 100000
    (current ← find_one (fun r => bool_decide
                  (testing_key r = (ci_pkg_name info, tree, branch))) tbl;
     o ← ok_opt (oid_from_str (pt_commit current));
     testing !! o).

(** One iteration of [for info in info { .. }] for a testing branch. *)
Definition testing_step (tree branch : string) (testing : gmap oid nat) (last : nat)
    (tbl : list TestingRow) (info : CommitInfo) : list TestingRow :=
  match testing !! ci_commit_id info with
  | None => tbl
  | Some new_order =>
      let db_order := db_order testing tree branch tbl info in
      if Nat.ltb new_order db_order && Nat.leb new_order last then
        upsert testing_key
          {| pt_spec_path := ci_spec_path info; pt_package := ci_pkg_name info;
             pt_version := ci_pkg_version info; pt_defines_path := ci_defines_path info;
             pt_branch := branch; pt_tree := tree; pt_commit := ci_commit_id info |} tbl
      else if Nat.ltb last new_order && Nat.ltb last db_order then
        delete_where (fun r => bool_decide (testing_key r = (ci_pkg_name info, tree, branch))) tbl
      else tbl
  end.

(** [last]: the testing order of the common commit with the largest
    mainbranch order ([max_by_key] keeps the last maximum). *)
Definition divergence_last (main testing : gmap oid nat) : option nat :=
  fold_left (fun acc '(oid, order) =>
               match main !! oid with
               | None => acc
               | Some mo =>
                   match acc with
                   | Some (mo', _) => if Nat.leb mo' mo then Some (mo, order) else acc
                   | None => Some (mo, order)
                   end
               end) (map_to_list testing) None
  ≫= fun x => Some (snd x).

(** The body of the loop over the testing branches: [None] marks the
    branch as outdated. *)
Definition update_testing_for_branch (tree branch : string) (main testing : gmap oid nat)
    (infos : list CommitInfo) (tbl : list TestingRow) : option (list TestingRow) :=
  last ← divergence_last main testing;
  Some (fold_left (testing_step tree branch testing last) infos tbl).

(** [defines_path.ancestors().nth(2)] is meant as the grandparent. *)
Definition grandparent (p : path) : option path := parent p ≫= parent.

(* ------------------------------------------------------------------ *)
(** ** File status of a changed path (git/commit.rs) *)

Inductive FileStatus := Added | Deleted | Modified | Unsupported.

(** [git2::Delta]. *)
Inductive Delta :=
| DUnmodified | DAdded | DDeleted | DModified | DRenamed | DCopied
| DIgnored | DUntracked | DTypechange | DUnreadable | DConflicted.

(** [impl From<Delta> for FileStatus]. *)
Definition file_status_from_delta (delta : Delta) : FileStatus :=
  match delta with
  | DAdded => Added
  | DDeleted => Deleted
  | DModified => Modified
  | _ => Unsupported
  end.

(** [impl From<&str> for FileStatus]. *)
Definition file_status_from_str (s : string) : FileStatus :=
  if decide (s = "Added") then Added
  else if decide (s = "Deleted") then Deleted
  else if decide (s = "Modified") then Modified
  else Unsupported.

(** [impl Display for FileStatus]. *)
Definition file_status_to_string (s : FileStatus) : string :=
  match s with
  | Added => "Added"
  | Deleted => "Deleted"
  | Modified => "Modified"
  | Unsupported => "Unsupported"
  end.

(* ------------------------------------------------------------------ *)
(** ** More of package.rs *)

(** [defines_path_to_spec_path]: [a/b/autobuild/defines -> a/b/spec]. *)
Definition defines_path_to_spec_path (defines_path : path) : result path string :=
  match parent defines_path with
  | None => Err ("The directory of defines file " ++ path_to_str defines_path ++ " is root.")
  | Some d =>
      match parent d with
      | None => Err ("The parent directory of defines file " ++ path_to_str defines_path
                     ++ " is root.")
      | Some pkg_dir => Ok (push pkg_dir ["spec"])
      end
  end.

Section ScanPackages.
Context `{ApmlParser} `{PackageBuilder}.

(** [scan_packages]: the [Meta] of every pair whose package was built. *)
Definition scan_packages (repo : Repository) (commit : oid) (pkg_dirs : list (path * path))
    : list Meta :=
  omap (fun '(spec, defines) =>
          let '(pkg, errors) := scan_package repo commit spec defines in
          '(p, ctx) ← pkg;
          Some (p, ctx, errors)) pkg_dirs.

End ScanPackages.

(* ------------------------------------------------------------------ *)
(** ** More of the commit index (db/commits.rs) *)

(** The largest timestamp of [rows]: SQL's [MAX(timestamp)], [NULL] on no
    row. *)
Definition max_timestamp (rows : list HistoryRow) : option Z :=
  fold_left (fun acc h => Some (match acc with
                                | Some m => Z.max m (h_timestamp h)
                                | None => h_timestamp h
                                end)) rows None.

(** [get_latest_history]: [WHERE tree = .. AND branch = .. AND timestamp IN
    (SELECT MAX(timestamp) ..)] and [.one()], the first such row in table
    order. *)
Definition get_latest_history (histories : list HistoryRow) (tree branch : string)
    : option HistoryRow :=
  m ← max_timestamp (filter (fun h => h_tree h = tree /\ h_branch h = branch) histories);
  find (fun h => bool_decide (h_tree h = tree /\ h_branch h = branch /\ h_timestamp h = m))
    histories.

(** The rowid SQLite gives an [id: NotSet] insert. *)
Definition next_history_id (histories : list HistoryRow) : nat :=
  S (fold_left (fun m h => Nat.max m (h_id h)) histories 0).

(** [insert_history], with [now] the value [unix_timestamp_now()] read. *)
Definition insert_history (histories : list HistoryRow) (tree branch : string) (commit : oid)
    (now : Z) : list HistoryRow :=
  histories ++ [{| h_id := next_history_id histories; h_tree := tree; h_branch := branch;
                   h_commit_id := commit; h_timestamp := now |}].

(** A row of the [commits] table. *)
Record CommitRow := {
  cm_pkg_name : string; cm_pkg_version : string; cm_spec_path : string;
  cm_defines_path : string; cm_tree : string; cm_branch : string;
  cm_commit_id : string; cm_commit_time : Z
}.

(** [ORDER BY commit_time DESC]: a stable sort, rows with equal times stay
    in table order. *)
Fixpoint insert_by_time_desc (c : CommitRow) (l : list CommitRow) : list CommitRow :=
  match l with
  | [] => [c]
  | x :: l' => if (cm_commit_time x <? cm_commit_time c)%Z then c :: l
               else x :: insert_by_time_desc c l'
  end.

Definition order_by_desc_commit_time (l : list CommitRow) : list CommitRow :=
  fold_left (fun acc c => insert_by_time_desc c acc) l [].

(** [IndexMap::insert]: an existing key keeps its position and takes the
    new value; a new key goes last. *)
Fixpoint index_map_insert {K V : Type} `{EqDecision K} (k : K) (v : V) (m : list (K * V))
    : list (K * V) :=
  match m with
  | [] => [(k, v)]
  | (k', v') :: m' => if decide (k = k') then (k, v) :: m' else (k', v') :: index_map_insert k v m'
  end.

(** The loop of [get_commits_by_packages]: [for commit in v { let oid =
    Oid::from_str(..)?; map.insert(oid, ..) }]. *)
Fixpoint commit_map (v : list CommitRow) (map : list (oid * (string * string * string)))
    : result (list (oid * (string * string * string))) string :=
  match v with
  | [] => Ok map
  | commit :: v' =>
      match oid_from_str (cm_commit_id commit) with
      | Err e => Err e
      | Ok oid => commit_map v' (index_map_insert oid (cm_pkg_version commit,
                                 cm_spec_path commit, cm_defines_path commit) map)
      end
  end.

(** [get_commits_by_packages]. *)
Definition get_commits_by_packages (commits : list CommitRow) (tree branch pkg_name : string)
    : result (list (oid * string * string * string)) string :=
  let v := order_by_desc_commit_time
             (filter (fun c => cm_pkg_name c = pkg_name /\ cm_tree c = tree /\
                               cm_branch c = branch) commits) in
  match commit_map v [] with
  | Err e => Err e
  | Ok m => Ok (List.map (fun '(k, (a, b, c)) => (k, a, b, c)) m)
  end.

(* ------------------------------------------------------------------ *)
(** ** More of the package metadata store (db/abbs.rs) *)

(** [get_packages_name]: the names of the [packages] rows of this tree. *)
Definition get_packages_name (self : AbbsDb) (st : AbbsTables) : list string :=
  map p_name (filter (fun r => p_tree r = db_tree self) (packages st)).

(** [delete_package]: seven [DELETE]s, each committed on its own. *)
Definition delete_package (self : AbbsDb) (pkg_name : string) : DbM unit :=
  modifyM (set_versions (delete_where (fun r =>
    bool_decide (v_package r = pkg_name /\ v_branch r = db_branch self))));;;
  modifyM (set_spec (delete_where (fun r => bool_decide (s_package r = pkg_name))));;;
  modifyM (set_dependencies (delete_where (fun r => bool_decide (dp_package r = pkg_name))));;;
  modifyM (set_packages (delete_where (fun r =>
    bool_decide (p_name r = pkg_name /\ p_tree r = db_tree self))));;;
  modifyM (set_fts (delete_where (fun r => bool_decide (f_name r = pkg_name))));;;
  modifyM (set_errors (delete_where (fun r =>
    bool_decide (er_package r = pkg_name /\ er_tree r = db_tree self /\
                 er_branch r = db_branch self))));;;
  modifyM (set_testing (delete_where (fun r =>
    bool_decide (pt_package r = pkg_name /\ pt_tree r = db_tree self /\
                 pt_branch r = db_branch self)))).

(** [delete_packages]. *)
Fixpoint delete_packages (self : AbbsDb) (pkg_names : list string) : DbM unit :=
  match pkg_names with
  | [] => retM tt
  | pkg_name :: rest => delete_package self pkg_name;;; delete_packages self rest
  end.

(** [update_testing_branch] after [update_package_testing] and
    [scan_branch] have run: [result] is the map from testing branch to its
    new commit infos (in its iteration order), [main] the order map of the
    main branch, [scan b] the order map of branch [b], and
    [current_branches] the names [branches(None)] lists. *)
Definition update_testing_branch (repo_tree : string) (main : gmap oid nat)
    (scan : string -> gmap oid nat) (result : list (string * list CommitInfo))
    (current_branches : list string) (tbl : list TestingRow) : list TestingRow :=
  let '(tbl, outdated_branches) :=
    fold_left (fun '(tbl, outdated) '(branch, info) =>
                 match update_testing_for_branch repo_tree branch main (scan branch) info tbl with
                 | Some tbl' => (tbl', outdated)
                 | None => (tbl, app outdated [branch])
                 end) result (tbl, []) in
  (* delete unused branch *)
  let tbl := delete_where (fun r => bool_decide (pt_tree r = repo_tree /\
                                                 pt_branch r ∉ current_branches)) tbl in
  delete_where (fun r => bool_decide (pt_tree r = repo_tree /\
                                      pt_branch r ∈ outdated_branches)) tbl.

(** The dependency rows [add_dependencies pkgdep relationship pkg_name]
    writes, in order. *)
Definition dep_rows (pkgdep : PkgDep) (relationship pkg_name : string) : list DependencyRow :=
  flat_map (fun '(architecture, v) =>
    let architecture := if decide (architecture = "default") then "" else architecture in
    map (fun '(dependency, relop, version) =>
      {| dp_package := pkg_name; dp_dependency := dependency; dp_relop := relop;
         dp_version := version; dp_architecture := architecture;
         dp_relationship := relationship |}) v) pkgdep.

(** The rows of the eight [add_dependencies] calls of [add_package]. *)
Definition package_dep_rows (pkg : Package) : list DependencyRow :=
  (dep_rows (pkg_dependencies pkg) "PKGDEP" (pkg_name pkg) ++
  dep_rows (pkg_build_dependencies pkg) "BUILDDEP" (pkg_name pkg) ++
  dep_rows (pkg_package_suggests pkg) "PKGSUG" (pkg_name pkg) ++
  dep_rows (pkg_package_provides pkg) "PKGPROV" (pkg_name pkg) ++
  dep_rows (pkg_package_recommands pkg) "PKGRECOM" (pkg_name pkg) ++
  dep_rows (pkg_package_replaces pkg) "PKGREP" (pkg_name pkg) ++
  dep_rows (pkg_package_breaks pkg) "PKGBREAK" (pkg_name pkg) ++
  dep_rows (pkg_package_configs pkg) "PKGCONFIG" (pkg_name pkg))%list.


(** The step of the fold of [update_testing_branch] that finds the last
    commit a testing branch shares with the main branch. *)
Definition divergence_step (main : gmap oid nat) (acc : option (nat * nat)) (kv : oid * nat)
    : option (nat * nat) :=
  let '(oid, order) := kv in
  match main !! oid with
  | None => acc
  | Some mo =>
      match acc with
      | Some (mo', _) => if Nat.leb mo' mo then Some (mo, order) else acc
      | None => Some (mo, order)
      end
  end.

(* ------------------------------------------------------------------ *)
(** ** Specification vocabulary *)

(** [needle] occurs in [hay] as a contiguous substring. *)
Definition contains (needle hay : string) : Prop :=
  exists pre suf, hay = (pre ++ needle ++ suf)%string.

(** The row of [tbl] whose key is [k], as the source's [find_one] finds it. *)
Definition lookup_row {R K : Type} `{EqDecision K} (key : R -> K) (k : K) (tbl : list R)
    : option R :=
  find_one (fun r => bool_decide (key r = k)) tbl.

(** [steps Rel m]: every successful run of [m] relates its start and end
    states by [Rel]. *)
Definition steps {A} (Rel : AbbsTables -> AbbsTables -> Prop) (m : DbM A) : Prop :=
  forall st a st', m st = Ok (a, st') -> Rel st st'.

(** Hoare triples for successful runs. *)
Definition hoare {A} (P : AbbsTables -> Prop) (m : DbM A) (Q : AbbsTables -> Prop) : Prop :=
  forall st a st', P st -> m st = Ok (a, st') -> Q st'.

(** Two history rows in ascending timestamp order. *)
Definition ts_le (a b : HistoryRow) : Prop := (h_timestamp a <= h_timestamp b)%Z.

(* ------------------------------------------------------------------ *)
(** ** Concrete collaborators and inputs, for evaluation *)

Module Examples.

(** A parser that accepts everything and records nothing. *)
#[export] Instance silent_parser : ApmlParser := {|
  apml_parse := fun _ ctx => (ctx, Ok tt);
  parse_error_display := perr_msg
|}.

(** A builder that rejects every context. *)
Definition failing_builder : PackageBuilder := {|
  package_from := fun _ _ => Err "missing PKGNAME"
|}.

Definition jade_defines : path := ["extra-doc"; "jade"; "autobuild"; "defines"].
Definition jade_spec : path := ["extra-doc"; "jade"; "spec"].

Definition jade_commit : CommitObj := {|
  c_tree := [(["extra-doc"], TreeEntry); (["extra-doc"; "jade"], TreeEntry);
             (jade_spec, Blob "VER=1.2"); (["extra-doc"; "jade"; "autobuild"], TreeEntry);
             (jade_defines, Blob "PKGNAME=jade")];
  c_parents := [];
  c_message := Some "jade: update to 1.2";
  c_committer_name := Some "Jane";
  c_committer_email := Some "jane@example.org";
  c_time := 100%Z
|}.

Definition jade_repo : Repository := {|
  repo_commits := [("c1", jade_commit)];
  repo_tree := "aosc-os-abbs";
  repo_branch := "stable"
|}.

(** A tree whose package sits at the root: [spec] and [defines] side by side. *)
Definition root_commit : CommitObj := {|
  c_tree := [(["spec"], Blob "VER=1"); (["defines"], Blob "PKGNAME=solo")];
  c_parents := [];
  c_message := Some "solo: new";
  c_committer_name := Some "Jane";
  c_committer_email := Some "jane@example.org";
  c_time := 100%Z
|}.

Definition root_repo : Repository := {|
  repo_commits := [("r1", root_commit)];
  repo_tree := "solo";
  repo_branch := "stable"
|}.

(** Another repository holding the same [jade] blobs: an extra file in
    the commit, another commit before it and another branch. *)
Definition jade_commit_readme : CommitObj := {|
  c_tree := app (c_tree jade_commit) [(["README"], Blob "AOSC OS abbs tree")];
  c_parents := ["c0"];
  c_message := Some "README: add";
  c_committer_name := Some "Kai";
  c_committer_email := Some "kai@example.org";
  c_time := 300%Z
|}.

Definition jade_repo_readme : Repository := {|
  repo_commits := [("c0", root_commit); ("c1", jade_commit_readme)];
  repo_tree := "aosc-os-abbs";
  repo_branch := "testing"
|}.

Definition jade_info : CommitInfo := {|
  ci_commit_id := "c2"; ci_commit_time := 200; ci_pkg_name := "jade";
  ci_pkg_version := "1.3"; ci_defines_path := "extra-doc/jade/autobuild/defines";
  ci_spec_path := "extra-doc/jade/spec"
|}.

Definition jade_histories : list HistoryRow :=
  [{| h_id := 1; h_tree := "aosc-os-abbs"; h_branch := "stable"; h_commit_id := "aa";
      h_timestamp := 100 |};
   {| h_id := 2; h_tree := "aosc-os-abbs"; h_branch := "stable"; h_commit_id := "bb";
      h_timestamp := 200 |};
   {| h_id := 3; h_tree := "aosc-os-abbs"; h_branch := "stable"; h_commit_id := "cc";
      h_timestamp := 300 |}].

Definition jade_pkg : Package := {|
  pkg_name := "jade"; pkg_version := "1.2"; pkg_release := 0; pkg_epoch := 0;
  pkg_category := "extra"; pkg_section := "doc"; pkg_pkg_section := "doc";
  pkg_directory := "jade"; pkg_description := "DSSSL engine";
  pkg_spec_path := "extra-doc/jade/spec";
  pkg_dependencies := []; pkg_build_dependencies := []; pkg_package_suggests := [];
  pkg_package_provides := []; pkg_package_recommands := []; pkg_package_replaces := [];
  pkg_package_breaks := []; pkg_package_configs := []
|}.

Definition jade_context : Context := <["PKGNAME" := "jade"]> (<["PKGVER" := "1.2"]> ∅).

Definition jade_change : Change := {|
  ch_pkg_name := "jade"; ch_version := "1.2"; ch_branch := "stable";
  ch_urgency := "medium"; ch_message := "jade: update to 1.2"; ch_githash := "c1";
  ch_maintainer_name := "Jane"; ch_maintainer_email := "jane@example.org";
  ch_timestamp := 100
|}.

Definition abbs_db : AbbsDb := {| db_tree := "aosc-os-abbs"; db_branch := "stable" |}.

(** An error row left from an earlier run, and a fresh one. *)
Definition old_error : ErrorRow := {|
  er_id := 1; er_package := "jade"; er_err_type := "parse"; er_message := "old";
  er_path := "extra-doc/jade/spec"; er_tree := "aosc-os-abbs"; er_branch := "stable";
  er_line := Some 3; er_col := Some 5
|}.

Definition new_error : PackageError := {|
  pe_package := "jade"; pe_path := "extra-doc/jade/autobuild/defines"; pe_message := "new";
  pe_err_type := EParse; pe_line := Some 1; pe_col := Some 1
|}.

Definition tables_with_old_error : AbbsTables := {|
  packages := []; package_duplicate := []; fts_packages := []; package_changes := [];
  package_versions := []; package_spec := [];
  package_dependencies := []; package_errors := [old_error]; package_testing := []
|}.

(** [jade] as another tree already stores it. *)
Definition jade_core_row : PackageRow := {|
  p_name := "jade"; p_tree := "aosc-os-core"; p_category := "extra"; p_section := "doc";
  p_pkg_section := "doc"; p_directory := "jade"; p_description := "DSSSL engine";
  p_spec_path := "extra-doc/jade/spec"
|}.

Definition tables_with_core_jade : AbbsTables := {|
  packages := [jade_core_row]; package_duplicate := []; fts_packages := [];
  package_changes := []; package_versions := []; package_spec := [];
  package_dependencies := []; package_errors := []; package_testing := []
|}.

(** [jade] with a runtime dependency for every architecture and a build
    dependency for amd64. *)
Definition jade_pkg_deps : Package := {|
  pkg_name := "jade"; pkg_version := "1.2"; pkg_release := 0; pkg_epoch := 0;
  pkg_category := "extra"; pkg_section := "doc"; pkg_pkg_section := "doc";
  pkg_directory := "jade"; pkg_description := "DSSSL engine";
  pkg_spec_path := "extra-doc/jade/spec";
  pkg_dependencies := [("default", [("opensp", None, None)])];
  pkg_build_dependencies := [("amd64", [("gcc", Some ">=", Some "9")])];
  pkg_package_suggests := []; pkg_package_provides := []; pkg_package_recommands := [];
  pkg_package_replaces := []; pkg_package_breaks := []; pkg_package_configs := []
|}.

End Examples.

(* ================================================================== *)
(** * Proofs *)

Section ParserProofs.
Context `{ApmlParser} `{PackageBuilder}.

Lemma ancestors_nth2 (p : path) :
  2 <= length p -> ancestors p !! 2 = grandparent p.
Proof.
  intros Hlen. unfold ancestors, grandparent, parent.
  destruct (rev p) as [|x [|y r]] eqn:Hr.
  - apply (f_equal length) in Hr. rewrite length_rev in Hr. simpl in Hr. lia.
  - apply (f_equal length) in Hr. rewrite length_rev in Hr. simpl in Hr. lia.
  - simpl. rewrite rev_app_distr. simpl. rewrite rev_involutive.
    destruct r; reflexivity.
Qed.

Lemma nth_back_length (n : nat) (p : path) (s : string) :
  nth_back n p = Some s -> n < length p.
Proof.
  unfold nth_back. intros Hs. apply lookup_lt_Some in Hs.
  rewrite length_rev in Hs. exact Hs.
Qed.

Lemma parse_spec_and_defines_name repo commit spec_path defines_path ctx errs :
  parse_spec_and_defines repo commit spec_path defines_path = Some (ctx, errs) ->
  exists name, nth_back 2 defines_path = Some name.
Proof.
  unfold parse_spec_and_defines.
  destruct (read_file repo spec_path commit); simpl; [|discriminate].
  destruct (read_file repo defines_path commit); simpl; [|discriminate].
  destruct (nth_back 2 defines_path) as [name|]; simpl; [eauto | discriminate].
Qed.

(** C6: if the spec or the defines blob cannot be read at the commit
    (missing, not a blob, or not valid UTF-8), [scan_package] yields no
    package and no errors. *)
Theorem scan_package_unreadable (repo : Repository) (commit : oid)
    (spec_path defines_path : path) :
  read_file repo spec_path commit = None \/ read_file repo defines_path commit = None ->
  scan_package repo commit spec_path defines_path = (None, []).
Proof.
  intros Hread. unfold scan_package, parse_spec_and_defines.
  destruct Hread as [Hs | Hd].
  - rewrite Hs. reflexivity.
  - destruct (read_file repo spec_path commit); simpl; [|reflexivity].
    rewrite Hd. reflexivity.
Qed.

(** C7 (amended): when the blobs are read and the builder fails with [e],
    the result is no package and the parse errors followed by exactly one
    [package] error whose message is [e], whose path is the defines
    path's grandparent and whose package name is the defines path's
    third-from-last segment ([nth_back(2)], e.g. [jade] for
    [extra-doc/jade/autobuild/defines]). *)
Theorem scan_package_builder_error (repo : Repository) (commit : oid)
    (spec_path defines_path : path) (ctx : Context) (errs : list PackageError) (e : string) :
  parse_spec_and_defines repo commit spec_path defines_path = Some (ctx, errs) ->
  package_from ctx spec_path = Err e ->
  exists name dir,
    nth_back 2 defines_path = Some name /\ grandparent defines_path = Some dir /\
    scan_package repo commit spec_path defines_path =
      (None, app errs [{| pe_package := name; pe_path := path_to_str dir; pe_message := e;
                          pe_err_type := EPackage; pe_line := None; pe_col := None |}]).
Proof.
  intros Hparse Hbuild.
  destruct (parse_spec_and_defines_name _ _ _ _ _ _ Hparse) as [name Hname].
  pose proof (nth_back_length _ _ _ Hname) as Hlen.
  rewrite <- (ancestors_nth2 defines_path) by lia.
  destruct (ancestors defines_path !! 2) as [dir|] eqn:Hdir.
  - exists name, dir. split; [exact Hname|]. split; [reflexivity|].
    unfold scan_package. rewrite Hparse, Hbuild, Hname, Hdir. reflexivity.
  - apply lookup_ge_None in Hdir.
    assert (length (ancestors defines_path) = S (length defines_path)) as Hal.
    { unfold ancestors. rewrite <- (length_rev defines_path).
      induction (rev defines_path) as [|x r IH]; simpl; [reflexivity|]. rewrite IH. reflexivity. }
    lia.
Qed.

(** C9: [scan_package] depends on the repository only through the two
    blobs it reads at the commit; on a fixed snapshot two runs agree, and
    the function returns a value without touching any store. *)
Theorem scan_package_deterministic (repo1 repo2 : Repository) (commit : oid)
    (spec_path defines_path : path) :
  read_file repo1 spec_path commit = read_file repo2 spec_path commit ->
  read_file repo1 defines_path commit = read_file repo2 defines_path commit ->
  scan_package repo1 commit spec_path defines_path =
  scan_package repo2 commit spec_path defines_path.
Proof.
  intros Hs Hd. unfold scan_package, parse_spec_and_defines.
  rewrite Hs, Hd. reflexivity.
Qed.

End ParserProofs.

(** C10: [add_package] with an empty change list fails with the message
    of the source and leaves every table as it was. *)
Theorem add_package_no_changes (self : AbbsDb) (pkg_meta : Meta) (st : AbbsTables) :
  add_package self pkg_meta [] st =
  (Err "cannot find changes of package, please update commit database", st).
Proof.
  destruct pkg_meta as [[pkg context] errors]. reflexivity.
Qed.

(* Witnesses *)

Lemma scan_package_unreadable_witness :
  read_file Examples.jade_repo ["extra-doc"; "jade"; "missing"] "c1" = None /\
  @scan_package Examples.silent_parser Examples.failing_builder Examples.jade_repo "c1"
    ["extra-doc"; "jade"; "missing"] Examples.jade_defines = (None, []).
Proof.
  split; [vm_compute; reflexivity|].
  apply (@scan_package_unreadable Examples.silent_parser Examples.failing_builder).
  left. vm_compute. reflexivity.
Defined.

Lemma scan_package_builder_error_witness :
  exists name dir,
    nth_back 2 Examples.jade_defines = Some name /\ grandparent Examples.jade_defines = Some dir /\
    @scan_package Examples.silent_parser Examples.failing_builder Examples.jade_repo "c1"
      Examples.jade_spec Examples.jade_defines =
      (None, app [] [{| pe_package := name; pe_path := path_to_str dir;
                        pe_message := "missing PKGNAME"; pe_err_type := EPackage;
                        pe_line := None; pe_col := None |}]).
Proof.
  apply (@scan_package_builder_error Examples.silent_parser Examples.failing_builder
           Examples.jade_repo "c1" Examples.jade_spec Examples.jade_defines ∅ []);
    vm_compute; reflexivity.
Defined.

Lemma scan_package_deterministic_witness :
  @scan_package Examples.silent_parser Examples.failing_builder Examples.jade_repo "c1"
    Examples.jade_spec Examples.jade_defines =
  @scan_package Examples.silent_parser Examples.failing_builder Examples.jade_repo_readme "c1"
    Examples.jade_spec Examples.jade_defines.
Proof.
  apply (@scan_package_deterministic Examples.silent_parser Examples.failing_builder);
    vm_compute; reflexivity.
Defined.

(* ------------------------------------------------------------------ *)
(** ** Urgency *)

Lemma prefix_app (s1 s2 : string) :
  String.prefix s1 s2 = true <-> exists suf, s2 = (s1 ++ suf)%string.
Proof.
  revert s2. induction s1 as [|a s1 IH]; intros s2.
  - simpl. split; [intros _; exists s2; destruct s2; reflexivity | intros _; destruct s2; reflexivity].
  - destruct s2 as [|b s2]; simpl.
    + split; [discriminate | intros [suf Hsuf]; discriminate].
    + destruct (Ascii.ascii_dec a b) as [<-|Hne].
      * rewrite IH. split; intros [suf Hsuf]; exists suf; [rewrite Hsuf|injection Hsuf]; auto.
      * split; [discriminate | intros [suf Hsuf]; injection Hsuf; intros; congruence].
Qed.

Lemma str_find_unfold (needle hay : string) :
  str_find needle hay =
  if String.prefix needle hay then Some 0
  else match hay with
       | EmptyString => None
       | String _ r => S <$> str_find needle r
       end.
Proof. destruct hay; reflexivity. Qed.

Lemma str_find_some (needle hay : string) :
  is_Some (str_find needle hay) <-> contains needle hay.
Proof.
  unfold contains. induction hay as [|a hay IH]; rewrite str_find_unfold.
  - destruct (String.prefix needle "") eqn:Hp.
    + split; [intros _|intros _; eexists; reflexivity]. apply prefix_app in Hp as [suf Hsuf].
      exists "", suf. exact Hsuf.
    + split; [intros [x Hx]; discriminate|].
      intros [pre [suf Hps]].
      destruct pre; [|discriminate]. simpl in Hps.
      destruct needle; [discriminate Hp | discriminate Hps].
  - destruct (String.prefix needle (String a hay)) eqn:Hp.
    + split; [intros _|intros _; eexists; reflexivity]. apply prefix_app in Hp as [suf Hsuf].
      exists "", suf. exact Hsuf.
    + rewrite fmap_is_Some, IH. split.
      * intros [pre [suf Hps]]. exists (String a pre), suf. rewrite Hps. reflexivity.
      * intros [pre [suf Hps]]. destruct pre as [|b pre].
        -- exfalso. simpl in Hps. assert (String.prefix needle (String a hay) = true) as Hc.
           { apply prefix_app. exists suf. exact Hps. }
           congruence.
        -- injection Hps as -> Hps. eauto.
Qed.

(** C8: in every change built by [get_package_changes] the urgency is
    ["high"] exactly when the commit message contains ["security"]
    (case-sensitive), and ["medium"] otherwise. *)
Theorem get_package_changes_urgency (repo : Repository) (pkg_name : string)
    (rows : list (oid * string * string * string)) (ch : Change) :
  In ch (get_package_changes repo pkg_name rows) ->
  (ch_urgency ch = "high" <-> contains "security" (ch_message ch)) /\
  (ch_urgency ch = "medium" <-> ~ contains "security" (ch_message ch)).
Proof.
  unfold get_package_changes. intros Hin.
  apply list_elem_of_In, list_elem_of_omap in Hin as [[[[cid ver] sp] dp] [_ Hch]].
  destruct (find_commit repo cid) as [c|]; simpl in Hch; [|discriminate].
  destruct (c_message c) as [m|]; simpl in Hch; [|discriminate].
  destruct (c_committer_name c); simpl in Hch; [|discriminate].
  destruct (c_committer_email c); simpl in Hch; [|discriminate].
  injection Hch as <-. simpl. rewrite <- str_find_some. unfold urgency_of.
  destruct (str_find "security" m) eqn:Hf.
  - split; split; try (intros; eauto; fail); try discriminate.
    intros Hn. exfalso. apply Hn. eauto.
  - split; split; try discriminate.
    + intros [x Hx]; discriminate.
    + intros _ [x Hx]; discriminate.
    + intros _. reflexivity.
Qed.

Lemma get_package_changes_urgency_witness :
  exists ch,
    In ch (get_package_changes Examples.jade_repo "jade" [("c1", "1.2", "s", "d")]) /\
    ((ch_urgency ch = "high" <-> contains "security" (ch_message ch)) /\
     (ch_urgency ch = "medium" <-> ~ contains "security" (ch_message ch))).
Proof.
  eexists. split.
  - vm_compute. left. reflexivity.
  - apply (get_package_changes_urgency Examples.jade_repo "jade" [("c1", "1.2", "s", "d")]).
    vm_compute. left. reflexivity.
Defined.

(* ------------------------------------------------------------------ *)
(** ** Row operations *)

Lemma find_app {A} (f : A -> bool) (l1 l2 : list A) :
  find f (l1 ++ l2) = match find f l1 with Some x => Some x | None => find f l2 end.
Proof.
  induction l1 as [|x l1 IH]; simpl; [reflexivity|]. destruct (f x); [reflexivity|exact IH].
Qed.

Section RowLemmas.
Context {R K : Type} `{EqDecision K} (key : R -> K).

Lemma lookup_row_map_replace (r : R) (k : K) (tbl : list R) :
  k <> key r ->
  lookup_row key k (map (fun x => if decide (key x = key r) then r else x) tbl) = lookup_row key k tbl.
Proof.
  intros Hk. unfold lookup_row, find_one. induction tbl as [|x tbl IH]; simpl; [done|].
  destruct (decide (key x = key r)) as [Hx|Hx]; simpl.
  - rewrite !bool_decide_false by congruence. exact IH.
  - rewrite IH. reflexivity.
Qed.

Lemma lookup_row_upsert_ne (r : R) (k : K) (tbl : list R) :
  k <> key r -> lookup_row key k (upsert key r tbl) = lookup_row key k tbl.
Proof.
  intros Hk. unfold upsert.
  destruct (existsb _ tbl).
  - apply lookup_row_map_replace. exact Hk.
  - unfold lookup_row, find_one. rewrite find_app.
    destruct (find _ tbl) eqn:Hf; [reflexivity|]. simpl.
    rewrite bool_decide_false by congruence. reflexivity.
Qed.

Lemma lookup_row_upsert_eq (r : R) (tbl : list R) :
  lookup_row key (key r) (upsert key r tbl) = Some r.
Proof.
  unfold upsert, lookup_row, find_one.
  destruct (existsb _ tbl) eqn:He.
  - induction tbl as [|x tbl IH]; simpl in *; [discriminate|].
    destruct (decide (key x = key r)) as [Hx|Hx]; simpl.
    + rewrite bool_decide_true by reflexivity. reflexivity.
    + rewrite bool_decide_false by congruence. simpl in He.
      rewrite bool_decide_false in He by congruence. apply IH. exact He.
  - rewrite find_app.
    assert (find (fun x => bool_decide (key x = key r)) tbl = None) as ->.
    { induction tbl as [|x tbl IH]; simpl in *; [reflexivity|].
      apply orb_false_iff in He as [He1 He2]. rewrite He1. apply IH. exact He2. }
    simpl. rewrite bool_decide_true by reflexivity. reflexivity.
Qed.

Lemma lookup_row_delete_eq (k : K) (tbl : list R) :
  lookup_row key k (delete_where (fun r => bool_decide (key r = k)) tbl) = None.
Proof.
  unfold lookup_row, find_one, delete_where. induction tbl as [|x tbl IH]; [reflexivity|].
  rewrite filter_cons. destruct (bool_decide (key x = k)) eqn:Hx; simpl.
  - exact IH.
  - rewrite Hx. exact IH.
Qed.

Lemma lookup_row_delete_ne (k k' : K) (tbl : list R) :
  k' <> k ->
  lookup_row key k' (delete_where (fun r => bool_decide (key r = k)) tbl) = lookup_row key k' tbl.
Proof.
  intros Hk. unfold lookup_row, find_one, delete_where.
  induction tbl as [|x tbl IH]; [reflexivity|].
  rewrite filter_cons. destruct (bool_decide (key x = k)) eqn:Hx; simpl.
  - apply bool_decide_eq_true in Hx. rewrite bool_decide_false by congruence. exact IH.
  - rewrite IH. reflexivity.
Qed.

(** Membership after an upsert. *)
Lemma elem_of_upsert (r x : R) (tbl : list R) :
  In x (upsert key r tbl) <-> x = r \/ (In x tbl /\ key x <> key r).
Proof.
  unfold upsert. destruct (existsb _ tbl) eqn:He.
  - rewrite in_map_iff. split.
    + intros [y [Hy Hin]]. destruct (decide (key y = key r)) as [Hk|Hk]; [left; congruence|].
      right. subst. auto.
    + intros [->|[Hin Hk]].
      * apply existsb_exists in He as [y [Hy Hk]]. apply bool_decide_eq_true in Hk.
        exists y. rewrite decide_True by exact Hk. auto.
      * exists x. rewrite decide_False by exact Hk. auto.
  - rewrite in_app_iff. simpl. split.
    + intros [Hin|[->|[]]]; [|left; reflexivity].
      right. split; [exact Hin|]. intros Hk.
      assert (existsb (fun y => bool_decide (key y = key r)) tbl = true) as Ht.
      { apply existsb_exists. exists x. rewrite bool_decide_true by exact Hk. auto. }
      congruence.
    + intros [->|[Hin _]]; auto.
Qed.

(** A multi-row upsert of rows with pairwise distinct keys. *)
Lemma elem_of_fold_upsert (rows tbl : list R) (x : R) :
  NoDup (map key rows) ->
  In x (fold_left (fun acc r => upsert key r acc) rows tbl) <->
  In x rows \/ (In x tbl /\ forall r, In r rows -> key x <> key r).
Proof.
  revert tbl. induction rows as [|r rows IH]; intros tbl Hnd; simpl.
  - split; [intros Hin; right; split; [exact Hin | intros ? []] | intros [[]|[Hin _]]; exact Hin].
  - inversion Hnd as [|? ? Hnotin Hnd']; subst.
    rewrite IH by exact Hnd'. rewrite elem_of_upsert. split.
    + intros [Hin|[[->|[Hin Hk]] Hall]]; [auto|auto|].
      right. split; [exact Hin|]. intros r' [<-|Hr']; auto.
    + intros [[->|Hin]|[Hin Hall]].
      * right. split; [left; reflexivity|]. intros r' Hr' Hk.
        apply Hnotin. rewrite Hk. apply list_elem_of_In. apply in_map. exact Hr'.
      * left. exact Hin.
      * right. split; [right; split; [exact Hin|apply Hall; left; reflexivity]|].
        intros r' Hr'. apply Hall. right. exact Hr'.
Qed.

End RowLemmas.

(* ------------------------------------------------------------------ *)
(** ** Testing view *)

(** C3: for a package info whose new commit has testing order
    [new_order], with [cur] the stored row's order (100000 when there is
    no row or its commit has no testing order): the row is upserted when
    [new_order < cur] and [new_order <= last], deleted when
    [new_order > last] and [cur > last], and the table is unchanged
    otherwise; rows of other keys are never touched. *)
Theorem testing_step_decision (tree branch : string) (testing : gmap oid nat) (last : nat)
    (tbl : list TestingRow) (info : CommitInfo) (new_order : nat) :
  testing !! ci_commit_id info = Some new_order ->
  let k := (ci_pkg_name info, tree, branch) in
  let cur := db_order testing tree branch tbl info in
  let tbl' := testing_step tree branch testing last tbl info in
  ((lookup_row testing_key k tbl = None -> cur = 100000) /\
   (forall r, lookup_row testing_key k tbl = Some r ->
      (forall o, oid_from_str (pt_commit r) = Ok o -> testing !! o = None) -> cur = 100000) /\
   (forall r o n, lookup_row testing_key k tbl = Some r ->
      oid_from_str (pt_commit r) = Ok o -> testing !! o = Some n -> cur = n)) /\
  (new_order < cur /\ new_order <= last ->
     lookup_row testing_key k tbl' =
       Some {| pt_package := ci_pkg_name info; pt_tree := tree; pt_branch := branch;
               pt_version := ci_pkg_version info; pt_spec_path := ci_spec_path info;
               pt_defines_path := ci_defines_path info; pt_commit := ci_commit_id info |} /\
     forall k', k' <> k -> lookup_row testing_key k' tbl' = lookup_row testing_key k' tbl) /\
  (last < new_order /\ last < cur ->
     lookup_row testing_key k tbl' = None /\
     forall k', k' <> k -> lookup_row testing_key k' tbl' = lookup_row testing_key k' tbl) /\
  (~ (new_order < cur /\ new_order <= last) -> ~ (last < new_order /\ last < cur) ->
     tbl' = tbl).
Proof.
  intros Hnew. cbv zeta.
  assert (Hcur : db_order testing tree branch tbl info =
          default 100000 (current ← lookup_row testing_key (ci_pkg_name info, tree, branch) tbl;
                          o ← ok_opt (oid_from_str (pt_commit current)); testing !! o))
    by reflexivity.
  assert (Hstep : testing_step tree branch testing last tbl info =
    let db_order := db_order testing tree branch tbl info in
    if Nat.ltb new_order db_order && Nat.leb new_order last then
      upsert testing_key
        {| pt_spec_path := ci_spec_path info; pt_package := ci_pkg_name info;
           pt_version := ci_pkg_version info; pt_defines_path := ci_defines_path info;
           pt_branch := branch; pt_tree := tree; pt_commit := ci_commit_id info |} tbl
    else if Nat.ltb last new_order && Nat.ltb last db_order then
      delete_where (fun r => bool_decide (testing_key r = (ci_pkg_name info, tree, branch))) tbl
    else tbl) by (unfold testing_step; rewrite Hnew; reflexivity).
  rewrite Hstep. cbv zeta.
  set (cur := db_order testing tree branch tbl info) in *.
  split; [|split; [|split]].
  - rewrite Hcur. split; [|split].
    + intros ->. reflexivity.
    + intros r Hr Hno. rewrite Hr. simpl.
      destruct (oid_from_str (pt_commit r)) as [o|e] eqn:Ho; simpl; [|reflexivity].
      rewrite (Hno o eq_refl). reflexivity.
    + intros r o n Hr Ho Hn. rewrite Hr. simpl. rewrite Ho. simpl. rewrite Hn. reflexivity.
  - intros [Hlt Hle].
    rewrite (proj2 (Nat.ltb_lt _ _) Hlt), (proj2 (Nat.leb_le _ _) Hle). simpl. split.
    + exact (lookup_row_upsert_eq testing_key _ tbl).
    + intros k' Hk'. apply lookup_row_upsert_ne. exact Hk'.
  - intros [Hlt1 Hlt2].
    assert (Nat.leb new_order last = false) as -> by (apply Nat.leb_gt; lia).
    rewrite andb_false_r.
    rewrite (proj2 (Nat.ltb_lt _ _) Hlt1), (proj2 (Nat.ltb_lt _ _) Hlt2). simpl. split.
    + apply lookup_row_delete_eq.
    + intros k' Hk'. apply lookup_row_delete_ne. exact Hk'.
  - intros Hn1 Hn2.
    destruct (Nat.ltb new_order cur) eqn:H1, (Nat.leb new_order last) eqn:H2;
      destruct (Nat.ltb last new_order) eqn:H3, (Nat.ltb last cur) eqn:H4; simpl;
      try reflexivity;
      try (apply Nat.ltb_lt in H1; apply Nat.leb_le in H2; exfalso; apply Hn1; split; assumption);
      (apply Nat.ltb_lt in H3; apply Nat.ltb_lt in H4; exfalso; apply Hn2; split; assumption).
Qed.

Lemma testing_step_decision_witness :
  let testing : gmap oid nat := <["c2" := 0]> ∅ in
  testing !! ci_commit_id Examples.jade_info = Some 0 /\
  lookup_row testing_key ("jade", "aosc-os-abbs", "t-jade")
    (testing_step "aosc-os-abbs" "t-jade" testing 1 [] Examples.jade_info) =
  Some {| pt_package := "jade"; pt_tree := "aosc-os-abbs"; pt_branch := "t-jade";
          pt_version := "1.3"; pt_spec_path := "extra-doc/jade/spec";
          pt_defines_path := "extra-doc/jade/autobuild/defines"; pt_commit := "c2" |}.
Proof.
  cbv zeta.
  assert (Hn : (<["c2" := 0]> (∅ : gmap oid nat)) !! ci_commit_id Examples.jade_info = Some 0)
    by (vm_compute; reflexivity).
  split; [exact Hn|].
  pose proof (testing_step_decision "aosc-os-abbs" "t-jade" (<["c2" := 0]> ∅) 1 []
                Examples.jade_info 0 Hn) as Hd.
  cbv zeta in Hd. destruct Hd as [_ [Hup _]]. apply Hup.
  split; [apply Nat.ltb_lt; vm_compute; reflexivity | lia].
Defined.

(* ------------------------------------------------------------------ *)
(** ** Counterexamples and failing inputs *)

(** C7 as stated names the package after the defines path's
    second-from-last segment; for [extra-doc/jade/autobuild/defines] that
    is [autobuild], while [scan_package] records [jade]. *)
Lemma scan_package_builder_error_name_counterexample :
  exists errs,
    @scan_package Examples.silent_parser Examples.failing_builder Examples.jade_repo "c1"
      Examples.jade_spec Examples.jade_defines = (None, errs) /\
    map pe_package errs = ["jade"] /\
    nth_back 1 Examples.jade_defines = Some "autobuild" /\
    "jade" <> "autobuild".
Proof.
  eexists. split; [vm_compute; reflexivity|].
  split; [reflexivity|]. split; [reflexivity|discriminate].
Qed.

(** C1 at a failing input: three History rows for [(aosc-os-abbs, stable)]
    written at 100, 200 and 300.  The window is [(bb, aa)]: [to] is the
    oldest tip, not the newest tip [cc]. *)
Theorem get_updated_packages_window_oldest :
  get_branch_histories Examples.jade_histories "aosc-os-abbs" "stable" =
    Examples.jade_histories /\
  get_updated_packages_window Examples.jade_histories "aosc-os-abbs" "stable" =
    Ok (Some "bb", "aa").
Proof. split; vm_compute; reflexivity. Qed.

(** C2 at a failing input: the table holds an error row of [jade] from an
    earlier run.  [add_package] commits with one new error, and the old
    row is still there next to the new one. *)
Theorem add_package_keeps_old_errors :
  exists st',
    add_package Examples.abbs_db (Examples.jade_pkg, Examples.jade_context, [Examples.new_error])
      [Examples.jade_change] Examples.tables_with_old_error = (Ok tt, st') /\
    map er_message (filter (fun r => er_package r = "jade") (package_errors st')) =
      ["old"; "new"].
Proof. eexists. split; vm_compute; reflexivity. Qed.

(* ------------------------------------------------------------------ *)
(** ** Reasoning about transaction bodies *)

Section MonadLemmas.
Context (Rel : AbbsTables -> AbbsTables -> Prop) `{!Reflexive Rel} `{!Transitive Rel}.

Lemma steps_bind {A B} (m : DbM A) (k : A -> DbM B) :
  steps Rel m -> (forall a, steps Rel (k a)) -> steps Rel (bindM m k).
Proof.
  intros Hm Hk st b st'. unfold bindM.
  destruct (m st) as [[a st1]|e] eqn:E; [|discriminate].
  intros Hrun. transitivity st1; [exact (Hm _ _ _ E) | exact (Hk _ _ _ _ Hrun)].
Qed.

Lemma steps_ret {A} (a : A) : steps Rel (retM a).
Proof. intros st b st' H. injection H as _ <-. reflexivity. Qed.

Lemma steps_get : steps Rel getM.
Proof. intros st b st' H. injection H as _ <-. reflexivity. Qed.

Lemma steps_fail {A} (e : string) : steps Rel (@failM A e).
Proof. intros st b st' H. discriminate. Qed.

Lemma steps_modify (g : AbbsTables -> AbbsTables) :
  (forall t, Rel t (g t)) -> steps Rel (modifyM g).
Proof. intros Hg st b st' H. injection H as _ <-. apply Hg. Qed.

Lemma steps_replace_many {R} (set : (list R -> list R) -> AbbsTables -> AbbsTables) ins rows :
  (forall t, Rel t (set (fun tbl => fold_left (fun acc r => ins r acc) rows tbl) t)) ->
  steps Rel (replace_many set ins rows).
Proof.
  intros Hs. destruct rows as [|r rows]; [apply steps_fail|]. apply steps_modify. exact Hs.
Qed.

End MonadLemmas.

Lemma hoare_bind {A B} P Q R (m : DbM A) (k : A -> DbM B) :
  hoare P m Q -> (forall a, hoare Q (k a) R) -> hoare P (bindM m k) R.
Proof.
  intros Hm Hk st b st' HP. unfold bindM.
  destruct (m st) as [[a st1]|e] eqn:E; [|discriminate].
  intros Hrun. exact (Hk a st1 b st' (Hm _ _ _ HP E) Hrun).
Qed.

Lemma hoare_true {A} P (m : DbM A) : hoare P m (fun _ => True).
Proof. intros ? ? ? _ _. exact I. Qed.

Lemma hoare_frame {A} (f : AbbsTables -> list SpecRow) (Q : list SpecRow -> Prop) (m : DbM A) :
  steps (fun s s' => f s' = f s) m -> hoare (fun s => Q (f s)) m (fun s => Q (f s)).
Proof. intros Hs st a st' HQ Hrun. rewrite (Hs _ _ _ Hrun). exact HQ. Qed.

Lemma transaction_ok {A} (body : DbM A) (st st' : AbbsTables) (a : A) :
  transaction body st = (Ok a, st') -> body st = Ok (a, st').
Proof.
  unfold transaction. destruct (body st) as [[a' st1]|e]; intros H; injection H; congruence.
Qed.

#[export] Instance eq_flip_refl {T} (f : AbbsTables -> T) :
  Reflexive (fun s s' : AbbsTables => f s' = f s).
Proof. intros s. reflexivity. Qed.
#[export] Instance eq_flip_trans {T} (f : AbbsTables -> T) :
  Transitive (fun s s' : AbbsTables => f s' = f s).
Proof. intros s1 s2 s3 H1 H2. congruence. Qed.
#[export] Instance incl_errors_refl :
  Reflexive (fun s s' : AbbsTables => incl (package_errors s) (package_errors s')).
Proof. intros s. apply incl_refl. Qed.
#[export] Instance incl_errors_trans :
  Transitive (fun s s' : AbbsTables => incl (package_errors s) (package_errors s')).
Proof. intros s1 s2 s3 H1 H2. eapply incl_tran; eassumption. Qed.

(** Walks a transaction body with [steps] goals. *)
Ltac steps_solve leaf :=
  repeat match goal with
  | |- forall _, _ => intros ?
  | |- steps _ (bindM _ _) => apply steps_bind; [typeclasses eauto.. | | intros ?]
  | |- steps _ (retM _) => apply steps_ret; typeclasses eauto
  | |- steps _ getM => apply steps_get; typeclasses eauto
  | |- steps _ (failM _) => apply steps_fail
  | |- steps _ (update_duplicate _ _ _) => unfold update_duplicate
  | |- steps _ (add_dependencies _ _ _) => unfold add_dependencies
  | |- steps _ (modifyM _) => apply steps_modify; intros ?; leaf
  | |- steps _ (replace_many _ _ _) => apply steps_replace_many; intros ?; leaf
  | |- steps _ (let _ := _ in _) => cbv zeta
  | |- steps _ (match ?x with _ => _ end) => destruct x
  end.

Lemma incl_fold_insert_error (rows tbl : list ErrorRow) :
  incl tbl (fold_left (fun acc r => insert_error_row r acc) rows tbl).
Proof.
  revert tbl. induction rows as [|r rows IH]; intros tbl; simpl; [apply incl_refl|].
  eapply incl_tran; [|apply IH]. unfold insert_error_row. apply incl_appl, incl_refl.
Qed.

(** The defect behind C2, in general: a committed [add_package] never
    removes an error row; every row stored before the call is still
    stored after it. *)
Lemma add_package_error_rows_kept (self : AbbsDb) (pkg_meta : Meta) (pkg_changes : list Change)
    (st st' : AbbsTables) :
  add_package self pkg_meta pkg_changes st = (Ok tt, st') ->
  incl (package_errors st) (package_errors st').
Proof.
  intros Hrun. apply transaction_ok in Hrun. revert st st' Hrun.
  enough (Hs : steps (fun s s' => incl (package_errors s) (package_errors s'))
                (add_package_txn self pkg_meta pkg_changes))
    by (intros st st' Hrun; exact (Hs _ _ _ Hrun)).
  destruct pkg_meta as [[pkg context] errors]. unfold add_package_txn.
  destruct pkg_changes as [|first rest]; [apply steps_fail|].
  steps_solve ltac:(first [ cbn [set_errors package_errors]; apply incl_fold_insert_error
                           | simpl; apply incl_refl ]).
Qed.

Lemma hoare_fail {A} P Q (e : string) : hoare P (@failM A e) Q.
Proof. intros ? ? ? _ H. discriminate. Qed.

Lemma hoare_delete_spec (P : AbbsTables -> Prop) (n : string) :
  hoare P (modifyM (set_spec (delete_where (fun r => bool_decide (s_package r = n)))))
    (fun s => forall r, In r (package_spec s) -> s_package r <> n).
Proof.
  intros st a st' _ H. injection H as _ <-. simpl. intros r Hin.
  unfold delete_where in Hin. apply list_elem_of_In, list_elem_of_filter in Hin as [Hr _].
  apply bool_decide_eq_false in Hr. exact Hr.
Qed.

Lemma nodup_spec_keys (n : string) (l : list (string * string)) :
  NoDup (fst <$> l) -> NoDup (map (fun kv => (n, fst kv)) l).
Proof.
  induction l as [|[k v] l IH]; simpl; intros Hnd; [constructor|].
  apply NoDup_cons in Hnd as [Hnot Hnd]. constructor; [|apply IH, Hnd].
  intros Hin. apply list_elem_of_In, in_map_iff in Hin as [[k' v'] [Heq Hin']]. injection Heq as ->.
  apply Hnot. apply list_elem_of_fmap. exists (k, v'). split; [reflexivity|].
  apply list_elem_of_In. exact Hin'.
Qed.

Lemma hoare_replace_spec (n : string) (context : Context) :
  hoare (fun s => forall r, In r (package_spec s) -> s_package r <> n)
    (replace_many set_spec (upsert spec_key)
       (map (fun '(k, v) => {| s_package := n; s_key := k; s_value := v |})
          (map_to_list context)))
    (fun s => forall r, (In r (package_spec s) /\ s_package r = n) <->
       exists k v, context !! k = Some v /\ r = {| s_package := n; s_key := k; s_value := v |}).
Proof.
  remember (map (fun '(k, v) => {| s_package := n; s_key := k; s_value := v |})
                 (map_to_list context)) as rows eqn:Hrows.
  intros st a st' Hpre Hrun.
  assert (Hst' : package_spec st' =
                 fold_left (fun acc r => upsert spec_key r acc) rows (package_spec st)).
  { unfold replace_many in Hrun. destruct rows; [discriminate|].
    injection Hrun as _ <-. reflexivity. }
  rewrite Hst'.
  assert (Hnd : NoDup (map spec_key rows)).
  { subst rows. rewrite map_map.
    replace (map _ (map_to_list context)) with
      (map (fun kv => (n, fst kv)) (map_to_list context))
      by (apply map_ext; intros [k v]; reflexivity).
    apply nodup_spec_keys, NoDup_fst_map_to_list. }
  assert (Hrow : forall r, In r rows <->
            exists k v, context !! k = Some v /\ r = {| s_package := n; s_key := k; s_value := v |}).
  { intros r. subst rows. rewrite in_map_iff. split.
    - intros [[k v] [<- Hin]]. exists k, v. split; [|reflexivity].
      apply elem_of_map_to_list, list_elem_of_In. exact Hin.
    - intros [k v] ; destruct v as [v [Hk ->]]. exists (k, v). split; [reflexivity|].
      apply list_elem_of_In, elem_of_map_to_list. exact Hk. }
  intros r. rewrite <- Hrow, (elem_of_fold_upsert spec_key rows _ r Hnd). split.
  - intros [[Hin|[Hin _]] Hn]; [exact Hin|]. exfalso. exact (Hpre r Hin Hn).
  - intros Hin. split; [left; exact Hin|].
    apply Hrow in Hin as [k [v [_ ->]]]. reflexivity.
Qed.

(** C5: after a committed [add_package], the PackageSpec rows of the
    package are exactly the [(key, value)] pairs of the supplied context:
    no row of an earlier context survives. *)
Theorem add_package_spec_rows (self : AbbsDb) (pkg : Package) (context : Context)
    (errors : list PackageError) (pkg_changes : list Change) (st st' : AbbsTables) :
  add_package self (pkg, context, errors) pkg_changes st = (Ok tt, st') ->
  forall r, (In r (package_spec st') /\ s_package r = pkg_name pkg) <->
    exists k v, context !! k = Some v /\
                r = {| s_package := pkg_name pkg; s_key := k; s_value := v |}.
Proof.
  intros Hrun. apply transaction_ok in Hrun. revert st st' Hrun.
  enough (Hh : hoare (fun _ => True) (add_package_txn self (pkg, context, errors) pkg_changes)
                 (fun s => forall r, (In r (package_spec s) /\ s_package r = pkg_name pkg) <->
                    exists k v, context !! k = Some v /\
                      r = {| s_package := pkg_name pkg; s_key := k; s_value := v |}))
    by (intros st st' Hrun; exact (Hh st tt st' I Hrun)).
  unfold add_package_txn. destruct pkg_changes as [|first rest]; [apply hoare_fail|].
  repeat match goal with
         | |- hoare _ (bindM (modifyM (set_spec _)) _) _ => fail 1
         | |- hoare _ (bindM _ _) _ => eapply hoare_bind; [apply hoare_true | intros ?; cbv zeta]
         end.
  eapply hoare_bind; [apply hoare_delete_spec | intros ?].
  eapply hoare_bind; [apply hoare_replace_spec | intros ?].
  apply (hoare_frame package_spec
           (fun tbl => forall r, (In r tbl /\ s_package r = pkg_name pkg) <->
              exists k v, context !! k = Some v /\
                r = {| s_package := pkg_name pkg; s_key := k; s_value := v |})).
  steps_solve ltac:(simpl; reflexivity).
Qed.

(** The state [add_package] commits on the example input. *)
Lemma add_package_spec_rows_witness :
  let run := add_package Examples.abbs_db (Examples.jade_pkg, Examples.jade_context, [])
               [Examples.jade_change] Examples.tables_with_old_error in
  run = (Ok tt, snd run) /\
  forall r, (In r (package_spec (snd run)) /\ s_package r = pkg_name Examples.jade_pkg) <->
    exists k v, Examples.jade_context !! k = Some v /\
                r = {| s_package := pkg_name Examples.jade_pkg; s_key := k; s_value := v |}.
Proof.
  cbv zeta. split; [vm_compute; reflexivity|].
  apply (add_package_spec_rows Examples.abbs_db Examples.jade_pkg Examples.jade_context []
           [Examples.jade_change] Examples.tables_with_old_error).
  vm_compute. reflexivity.
Defined.

(* ------------------------------------------------------------------ *)
(** ** Path classifier *)

Lemma find_map_some {A B} (f : A -> option B) (l : list A) (y : B) :
  find_map f l = Some y <->
  exists pre x post, l = app pre (x :: post) /\ f x = Some y /\ Forall (fun z => f z = None) pre.
Proof.
  induction l as [|x l IH]; simpl.
  - split; [discriminate|]. intros [pre [x [post [Hl _]]]]. destruct pre; discriminate.
  - destruct (f x) as [y'|] eqn:Hx.
    + split.
      * intros [= <-]. exists [], x, l. auto.
      * intros [pre [z [post [Hl [Hz Hpre]]]]]. destruct pre as [|w pre].
        -- injection Hl as -> ->. congruence.
        -- injection Hl as -> ->. inversion Hpre; congruence.
    + rewrite IH. split.
      * intros [pre [z [post [Hl [Hz Hpre]]]]]. exists (x :: pre), z, post.
        rewrite Hl. auto.
      * intros [pre [z [post [Hl [Hz Hpre]]]]]. destruct pre as [|w pre].
        -- injection Hl as -> ->. congruence.
        -- injection Hl as -> ->. inversion Hpre; subst. exists pre, z, post. auto.
Qed.

Lemma find_map_none {A B} (f : A -> option B) (l : list A) :
  find_map f l = None <-> Forall (fun z => f z = None) l.
Proof.
  induction l as [|x l IH]; simpl; [split; auto|].
  destruct (f x) eqn:Hx.
  - split; [discriminate|]. intros H. inversion H; congruence.
  - rewrite IH. split; [intros; constructor; auto | intros H; inversion H; auto].
Qed.

Lemma strip_prefix_some (d q rel : path) : strip_prefix d q = Some rel <-> q = app d rel.
Proof.
  revert q. induction d as [|a d IH]; intros q; simpl.
  - split; congruence.
  - destruct q as [|b q]; [split; discriminate|].
    destruct (decide (a = b)) as [<-|Hne].
    + rewrite IH. split; [intros ->; reflexivity | intros H; injection H; auto].
    + split; [discriminate | intros H; injection H; congruence].
Qed.

Lemma walk_subtree_spec (t : gtree) (d q : path) :
  In q (walk_subtree t d) <-> exists rel e, rel <> [] /\ q = app d rel /\ In (q, e) t.
Proof.
  unfold walk_subtree. rewrite <- list_elem_of_In, list_elem_of_omap. split.
  - intros [[q' e] [Hin Hq]].
    destruct (strip_prefix d q') as [[|x rel]|] eqn:Hs; try discriminate.
    injection Hq as Hq. subst q. apply strip_prefix_some in Hs. subst q'.
    exists (x :: rel), e. split; [discriminate|]. split; [reflexivity|].
    apply list_elem_of_In. exact Hin.
  - intros [rel [e [Hrel [-> Hin]]]]. exists (app d rel, e).
    split; [apply list_elem_of_In; exact Hin|].
    assert (strip_prefix d (app d rel) = Some rel) as -> by (apply strip_prefix_some; reflexivity).
    destruct rel; [congruence|reflexivity].
Qed.

(** C4 (counterexample): for a root-level [spec], the parent is [""]; the
    lookup of the empty path in the tree fails, so the classifier reports an
    error although a [defines] file lies under that parent. *)
Lemma path_to_defines_path_root_spec_counterexample :
  path_to_defines_path Examples.root_repo "r1" ["spec"]
    = Err "the path does not exist in the given tree" /\
  parent ["spec"] = Some [] /\
  In (["defines"], Blob "PKGNAME=solo") (c_tree Examples.root_commit) /\
  file_name ["defines"] = Some "defines".
Proof. vm_compute. repeat split; auto. Qed.

(** C4 (amended): under a commit of the repository, the classifier returns
    [[path]] when the basename is [defines]. When the basename is [spec] and
    the parent is a non-root directory of the commit's tree, it returns the
    entries strictly below that parent whose basename is [defines]; when the
    parent is the root or not a directory of the tree, it fails. Otherwise it
    returns [[a/defines]] for the first [a] of [ancestors path] (the path
    itself first, the root last) whose [a/defines] exists in the tree, and
    fails when there is none. *)
Theorem path_to_defines_path_classifies (repo : Repository) (commit : oid)
    (c : CommitObj) (p : path) (Hc : find_commit repo commit = Some c) :
  (file_name p = Some "defines" -> path_to_defines_path repo commit p = Ok [p]) /\
  (file_name p = Some "spec" -> forall d, parent p = Some d -> d <> [] ->
     get_path (c_tree c) d = Some TreeEntry ->
     exists l, path_to_defines_path repo commit p = Ok l /\
       forall q, In q l <-> file_name q = Some "defines" /\
         exists rel e, rel <> [] /\ q = app d rel /\ In (q, e) (c_tree c)) /\
  (file_name p = Some "spec" -> forall d, parent p = Some d ->
     d = [] \/ get_path (c_tree c) d <> Some TreeEntry ->
     exists e, path_to_defines_path repo commit p = Err e) /\
  (forall f, file_name p = Some f -> f <> "defines" -> f <> "spec" ->
     (forall l, path_to_defines_path repo commit p = Ok l <->
        exists l1 a l2, ancestors p = app l1 (a :: l2) /\
          l = [app a ["defines"]] /\ is_Some (get_path (c_tree c) (app a ["defines"])) /\
          Forall (fun b => get_path (c_tree c) (app b ["defines"]) = None) l1) /\
     ((exists e, path_to_defines_path repo commit p = Err e) <->
        Forall (fun b => get_path (c_tree c) (app b ["defines"]) = None) (ancestors p))).
Proof.
  unfold path_to_defines_path, spec_path_to_defines_path. rewrite Hc.
  split; [|split; [|split]].
  - intros ->. destruct (decide ("defines" = "defines")); congruence.
  - intros Hf d Hd Hne Hg. rewrite Hf.
    destruct (decide ("spec" = "defines")) as [Heq|_]; [discriminate|].
    destruct (decide ("spec" = "spec")) as [_|]; [|congruence].
    rewrite Hd, Hg. eexists. split; [reflexivity|]. intros q.
    rewrite <- list_elem_of_In, list_elem_of_filter, list_elem_of_In, walk_subtree_spec.
    tauto.
  - intros Hf d Hd Hbad. rewrite Hf.
    destruct (decide ("spec" = "defines")) as [Heq|_]; [discriminate|].
    destruct (decide ("spec" = "spec")) as [_|]; [|congruence].
    rewrite Hd. destruct Hbad as [->|Hbad]; [eexists; reflexivity|].
    destruct (get_path (c_tree c) d) as [[b|]|]; [eexists; reflexivity|congruence|eexists; reflexivity].
  - intros f Hf Hd Hs. rewrite Hf.
    destruct (decide (f = "defines")); [congruence|].
    destruct (decide (f = "spec")); [congruence|].
    set (g := fun a : path => let q := push a ["defines"] in
                match get_path (c_tree c) q with Some _ => Some [q] | None => None end).
    assert (Hg : forall b, g b = None <-> get_path (c_tree c) (app b ["defines"]) = None).
    { intros b. unfold g, push. cbv zeta. destruct (get_path _ _); split; congruence. }
    split.
    + intros l. destruct (find_map g (ancestors p)) as [r|] eqn:Hfm.
      * apply find_map_some in Hfm as [l1 [a [l2 [Hl [Ha Hpre]]]]].
        split.
        -- intros [= <-]. exists l1, a, l2. split; [exact Hl|].
           unfold g, push in Ha. cbv zeta in Ha.
           destruct (get_path (c_tree c) (app a ["defines"])) eqn:Hq; [|discriminate].
           injection Ha as <-. split; [reflexivity|]. split; [eauto|].
           eapply Forall_impl; [exact Hpre|]. intros b. apply Hg.
        -- intros [l1' [a' [l2' [Hl' [-> [Hs' Hpre']]]]]].
           assert (Hfm' : find_map g (ancestors p) = Some [app a' ["defines"]]).
           { apply find_map_some. exists l1', a', l2'. split; [exact Hl'|]. split.
             - unfold g, push. cbv zeta. destruct Hs' as [x Hx]. rewrite Hx. reflexivity.
             - eapply Forall_impl; [exact Hpre'|]. intros b. apply Hg. }
           assert (Hr : Some r = Some [app a' ["defines"]]).
           { rewrite <- Hfm'. symmetry. apply find_map_some. eauto 10. }
           congruence.
      * split; [discriminate|].
        intros [l1 [a [l2 [Hl [-> [Hs' Hpre]]]]]].
        apply find_map_none in Hfm. rewrite Hl in Hfm.
        apply Forall_app in Hfm as [_ Hfm]. inversion Hfm as [|? ? Ha]; subst.
        apply Hg in Ha. destruct Hs' as [x Hx]. congruence.
    + destruct (find_map g (ancestors p)) as [r|] eqn:Hfm.
      * split; [intros [e He]; discriminate|].
        intros Hall. exfalso.
        assert (Hnone : find_map g (ancestors p) = None).
        { apply find_map_none. eapply Forall_impl; [exact Hall|]. intros b. apply Hg. }
        congruence.
      * split; [intros _|intros _; eexists; reflexivity].
        apply find_map_none in Hfm. eapply Forall_impl; [exact Hfm|]. intros b. apply Hg.
Qed.

(** The classifier on the [jade] commit: its [spec] under the directory
    [extra-doc/jade], whose only [defines] entry is the package's. *)
Lemma path_to_defines_path_classifies_witness :
  find_commit Examples.jade_repo "c1" = Some Examples.jade_commit /\
  exists l, path_to_defines_path Examples.jade_repo "c1" Examples.jade_spec = Ok l /\
    forall q, In q l <-> file_name q = Some "defines" /\
      exists rel e, rel <> [] /\ q = app ["extra-doc"; "jade"] rel /\
                    In (q, e) (c_tree Examples.jade_commit).
Proof.
  assert (Hc : find_commit Examples.jade_repo "c1" = Some Examples.jade_commit)
    by (vm_compute; reflexivity).
  split; [exact Hc|].
  destruct (path_to_defines_path_classifies Examples.jade_repo "c1" Examples.jade_commit
              Examples.jade_spec Hc) as [_ [H2 _]].
  apply H2; [vm_compute; reflexivity | vm_compute; reflexivity | discriminate
            | vm_compute; reflexivity].
Defined.

(* ================================================================== *)
(** * Further properties of the code *)

(** [FileStatus]'s text round-trips through [From<&str>], and only the
    added, deleted and modified deltas get a supported status. *)
Theorem file_status_roundtrip :
  (forall s, file_status_from_str (file_status_to_string s) = s) /\
  (forall str, file_status_from_str str <> Unsupported ->
               file_status_to_string (file_status_from_str str) = str) /\
  (forall d, file_status_from_delta d <> Unsupported <-> d = DAdded \/ d = DDeleted \/ d = DModified).
Proof.
  split; [|split].
  - intros []; reflexivity.
  - intros str. unfold file_status_from_str.
    destruct (decide (str = "Added")) as [->|]; [reflexivity|].
    destruct (decide (str = "Deleted")) as [->|]; [reflexivity|].
    destruct (decide (str = "Modified")) as [->|]; [reflexivity|].
    intros H; congruence.
  - intros []; simpl; intuition congruence.
Qed.

(** [spec_decorator] renames [VER] to [PKGVER] and [REL] to [PKGREL],
    the spec's value replacing the one of [defines], and keeps every other
    key. *)
Theorem spec_decorator_lookup (c : Context) (k : string) :
  spec_decorator c !! k =
    if decide (k = "VER") then None
    else if decide (k = "REL") then None
    else if decide (k = "PKGVER") then
      match c !! "VER" with Some v => Some v | None => c !! "PKGVER" end
    else if decide (k = "PKGREL") then
      match c !! "REL" with Some v => Some v | None => c !! "PKGREL" end
    else c !! k.
Proof.
  unfold spec_decorator.
  destruct (c !! "VER") as [ver|] eqn:Hv;
  [ destruct (<["PKGVER":=ver]> (delete "VER" c) !! "REL") as [rel|] eqn:Hr
  | destruct (c !! "REL") as [rel|] eqn:Hr ];
  repeat match goal with
    | |- context [decide ?P] => destruct (decide P); subst
    end; simplify_map_eq; try reflexivity; try congruence.
Qed.

Lemma parent_snoc (p : path) (x : string) : parent (app p [x]) = Some p.
Proof. unfold parent. rewrite rev_app_distr. simpl. rewrite rev_involutive. reflexivity. Qed.

Lemma parent_nil : parent [] = None.
Proof. reflexivity. Qed.

Lemma path_snoc_cases (p : path) : p = [] \/ exists q x, p = app q [x].
Proof.
  destruct (rev p) as [|x r] eqn:Hr.
  - left. apply (f_equal (@rev _)) in Hr. rewrite rev_involutive in Hr. exact Hr.
  - right. exists (rev r), x. apply (f_equal (@rev _)) in Hr. rewrite rev_involutive in Hr.
    rewrite Hr. reflexivity.
Qed.

(** [defines_path_to_spec_path] maps [d/x/y] to [d/spec] and fails on a
    path of fewer than two components. *)
Theorem defines_path_to_spec_path_shape (p : path) :
  (forall s, defines_path_to_spec_path p = Ok s <->
     exists d x y, p = app d [x; y] /\ s = app d ["spec"]) /\
  ((exists e, defines_path_to_spec_path p = Err e) <-> length p < 2).
Proof.
  unfold defines_path_to_spec_path.
  destruct (path_snoc_cases p) as [->|[q [y ->]]].
  - simpl. split; [intros s; split; [discriminate|] | split; [intros _; simpl; lia | eauto]].
    intros [d [x [y [Hp _]]]]. destruct d; discriminate.
  - rewrite parent_snoc. destruct (path_snoc_cases q) as [->|[d [x ->]]].
    + simpl. split.
      * intros s. split; [discriminate|]. intros [d [x [y' [Hp _]]]].
        destruct d as [|a [|b d]]; discriminate.
      * split; [intros _; simpl; lia | eauto].
    + rewrite parent_snoc. split.
      * intros s. split.
        -- intros [= <-]. exists d, x, y. rewrite <- app_assoc. split; reflexivity.
        -- intros [d' [x' [y' [Hp ->]]]].
           assert (Hp' : app (app d [x]) [y] = app (app d' [x']) [y'])
             by (rewrite Hp, <- app_assoc; reflexivity).
           apply app_inj_tail in Hp' as [Hq _]. apply app_inj_tail in Hq as [-> _].
           reflexivity.
      * split; [intros [e He]; discriminate|].
        rewrite !length_app. simpl. lia.
Qed.

Lemma file_name_snoc (p : path) (x : string) : file_name (app p [x]) = Some x.
Proof. unfold file_name. apply last_snoc. Qed.

(** The two path maps of package.rs agree: for a [defines] file at
    [pkg/sub/defines] of a commit whose [pkg] is a directory (not the
    root), [defines_path_to_spec_path] gives [pkg/spec], and the defines
    files [spec_path_to_defines_path] lists for [pkg/spec] include the
    file we started from. *)
Theorem defines_spec_defines_roundtrip (repo : Repository) (commit : oid) (c : CommitObj)
    (pkg : path) (sub : string) (e : entry) :
  find_commit repo commit = Some c -> pkg <> [] ->
  get_path (c_tree c) pkg = Some TreeEntry ->
  In (app pkg [sub; "defines"], e) (c_tree c) ->
  exists l, defines_path_to_spec_path (app pkg [sub; "defines"]) = Ok (app pkg ["spec"]) /\
    spec_path_to_defines_path repo commit (app pkg ["spec"]) = Ok l /\
    In (app pkg [sub; "defines"]) l.
Proof.
  intros Hc Hne Hg Hin.
  assert (Hd : app pkg [sub; "defines"] = app (app pkg [sub]) ["defines"])
    by (rewrite <- app_assoc; reflexivity).
  unfold spec_path_to_defines_path. rewrite Hc, parent_snoc, Hg.
  eexists. split; [|split; [reflexivity|]].
  - unfold defines_path_to_spec_path. rewrite Hd, !parent_snoc. reflexivity.
  - apply list_elem_of_In, list_elem_of_filter. split.
    + rewrite Hd. apply file_name_snoc.
    + apply list_elem_of_In, walk_subtree_spec. exists [sub; "defines"], e.
      split; [discriminate|]. split; [reflexivity|exact Hin].
Qed.

Section ScanPackagesProofs.
Context `{ApmlParser} `{PackageBuilder}.

Lemma parse_errors_type (n : string) (p : path) (r : result unit (list ParseError)) :
  forall e, In e (parse_errors n p r) -> pe_err_type e = EParse.
Proof.
  intros e. destruct r as [|es]; simpl; [tauto|].
  rewrite in_map_iff. intros [x [<- _]]. reflexivity.
Qed.

Lemma scan_package_built_errors (repo : Repository) (commit : oid) (spec defines : path)
    (p : Package) (ctx : Context) (errs : list PackageError) :
  scan_package repo commit spec defines = (Some (p, ctx), errs) ->
  forall e, In e errs -> pe_err_type e = EParse.
Proof.
  unfold scan_package, parse_spec_and_defines.
  destruct (read_file repo spec commit) as [s|]; simpl; [|intros [=]].
  destruct (read_file repo defines commit) as [d|]; simpl; [|intros [=]].
  destruct (nth_back 2 defines) as [n|]; simpl; [|intros [=]].
  destruct (apml_parse s ∅) as [ctx1 r1]. destruct (apml_parse d (spec_decorator ctx1)) as [ctx2 r2].
  destruct (package_from ctx2 spec) as [pkg|msg].
  - intros [= _ _ <-] e Hin. apply in_app_or in Hin as [Hin|Hin]; eapply parse_errors_type; eauto.
  - simpl. destruct (ancestors defines !! 2); intros [=].
Qed.

(** [scan_packages] keeps exactly the pairs whose package was built, with
    their errors; so the [package] error [scan_package] records for a
    failed build never reaches its output: every error it passes on is a
    parse error. *)
Theorem scan_packages_parse_errors_only (repo : Repository) (commit : oid)
    (pkg_dirs : list (path * path)) :
  (forall m, In m (scan_packages repo commit pkg_dirs) <->
     exists spec defines p ctx errs, In (spec, defines) pkg_dirs /\
       scan_package repo commit spec defines = (Some (p, ctx), errs) /\ m = (p, ctx, errs)) /\
  (forall p ctx errs, In (p, ctx, errs) (scan_packages repo commit pkg_dirs) ->
     forall e, In e errs -> pe_err_type e = EParse).
Proof.
  assert (Hmem : forall m, In m (scan_packages repo commit pkg_dirs) <->
     exists spec defines p ctx errs, In (spec, defines) pkg_dirs /\
       scan_package repo commit spec defines = (Some (p, ctx), errs) /\ m = (p, ctx, errs)).
  { intros m. unfold scan_packages. rewrite <- list_elem_of_In, list_elem_of_omap. split.
    - intros [[spec defines] [Hin Hm]].
      destruct (scan_package repo commit spec defines) as [[[p ctx]|] errs] eqn:Hs; [|discriminate].
      simpl in Hm. injection Hm as <-. exists spec, defines, p, ctx, errs.
      split; [apply list_elem_of_In; exact Hin|]. auto.
    - intros [spec [defines [p [ctx [errs [Hin [Hs ->]]]]]]]. exists (spec, defines).
      split; [apply list_elem_of_In; exact Hin|]. rewrite Hs. reflexivity. }
  split; [exact Hmem|].
  intros p ctx errs Hin. apply Hmem in Hin as [spec [defines [p' [ctx' [errs' [_ [Hs Heq]]]]]]].
  injection Heq as -> -> ->. eapply scan_package_built_errors. exact Hs.
Qed.

End ScanPackagesProofs.

Lemma max_timestamp_fold (rows : list HistoryRow) (a m : Z) :
  fold_left (fun acc h => Some (match acc with
                                | Some m => Z.max m (h_timestamp h)
                                | None => h_timestamp h
                                end)) rows (Some a) = Some m ->
  (m = a \/ exists h, In h rows /\ h_timestamp h = m) /\ (a <= m)%Z /\
  forall h, In h rows -> (h_timestamp h <= m)%Z.
Proof.
  revert a. induction rows as [|h rows IH]; intros a; simpl.
  - intros [= ->]. split; [left; reflexivity|]. split; [lia | tauto].
  - intros Hf. destruct (IH _ Hf) as [Hw [Hle Hall]]. split; [|split].
    + destruct Hw as [Hm|[h' [Hin Hh']]].
      * destruct (Z.max_spec a (h_timestamp h)) as [[_ E]|[_ E]]; rewrite E in Hm.
        -- right. exists h. auto.
        -- left. exact Hm.
      * right. exists h'. auto.
    + lia.
    + intros h' [<-|Hin]; [lia|]. apply Hall, Hin.
Qed.

Lemma max_timestamp_spec (rows : list HistoryRow) :
  (max_timestamp rows = None <-> rows = []) /\
  forall m, max_timestamp rows = Some m ->
    (exists h, In h rows /\ h_timestamp h = m) /\ forall h, In h rows -> (h_timestamp h <= m)%Z.
Proof.
  unfold max_timestamp. destruct rows as [|h rows]; simpl.
  - split; [tauto|]. intros m [=].
  - split.
    + split; [|discriminate]. intros Hf.
      exfalso. clear -Hf. revert Hf. generalize (h_timestamp h). induction rows as [|x rows IH];
        simpl; intros z Hf; [discriminate|]. eapply IH. exact Hf.
    + intros m Hf. destruct (max_timestamp_fold rows _ _ Hf) as [Hw [Hle Hall]]. split.
      * destruct Hw as [->|[h' [Hin Hh]]]; [exists h; auto | exists h'; auto].
      * intros h' [<-|Hin]; [exact Hle | apply Hall, Hin].
Qed.

Lemma find_none_intro {A} (f : A -> bool) (l : list A) :
  (forall x, In x l -> f x = false) -> find f l = None.
Proof.
  induction l as [|x l IH]; simpl; intros H; [reflexivity|].
  rewrite (H x (or_introl eq_refl)). apply IH. auto.
Qed.

(** [get_latest_history] finds a row exactly when the (tree, branch) has
    one, and the row it finds is one of the pair's rows with the largest
    timestamp. *)
Theorem get_latest_history_max (histories : list HistoryRow) (tree branch : string) :
  (get_latest_history histories tree branch = None <->
     forall h, In h histories -> ~ (h_tree h = tree /\ h_branch h = branch)) /\
  (forall h, get_latest_history histories tree branch = Some h ->
     In h histories /\ h_tree h = tree /\ h_branch h = branch /\
     forall h', In h' histories -> h_tree h' = tree -> h_branch h' = branch ->
       (h_timestamp h' <= h_timestamp h)%Z).
Proof.
  set (rows := filter (fun h => h_tree h = tree /\ h_branch h = branch) histories).
  assert (Hrows : forall h, In h rows <-> In h histories /\ h_tree h = tree /\ h_branch h = branch).
  { intros h. unfold rows. rewrite <- list_elem_of_In, list_elem_of_filter, list_elem_of_In. tauto. }
  destruct (max_timestamp_spec rows) as [Hnone Hsome].
  unfold get_latest_history. fold rows. split.
  - destruct (max_timestamp rows) as [m|] eqn:Hm; simpl.
    + destruct (Hsome m eq_refl) as [[h [Hin Hh]] _]. apply Hrows in Hin as [Hin [Ht Hb]].
      split.
      * intros Hf. pose proof (find_none _ _ Hf h Hin) as Hx.
        cbv beta in Hx. rewrite bool_decide_true in Hx by auto. discriminate.
      * intros Hall. exfalso. exact (Hall h Hin (conj Ht Hb)).
    + split; [intros _ h Hin Hhb|reflexivity].
      assert (Hr : rows = []) by (apply Hnone; reflexivity).
      assert (In h rows) as Hr' by (apply Hrows; tauto). rewrite Hr in Hr'. exact Hr'.
  - intros h. destruct (max_timestamp rows) as [m|] eqn:Hm; simpl; [|discriminate].
    intros Hf. apply find_some in Hf as [Hin Hp]. apply bool_decide_eq_true in Hp as [Ht [Hb Hts]].
    split; [exact Hin|]. split; [exact Ht|]. split; [exact Hb|].
    intros h' Hin' Ht' Hb'. rewrite Hts. apply (proj2 (Hsome m eq_refl)). apply Hrows. auto.
Qed.

(** After [insert_history] at a time later than every stored row of the
    (tree, branch), [get_latest_history] returns the inserted row. *)
Theorem insert_history_latest (histories : list HistoryRow) (tree branch : string)
    (commit : oid) (now : Z) :
  (forall h, In h histories -> h_tree h = tree -> h_branch h = branch -> (h_timestamp h < now)%Z) ->
  get_latest_history (insert_history histories tree branch commit now) tree branch =
    Some {| h_id := next_history_id histories; h_tree := tree; h_branch := branch;
            h_commit_id := commit; h_timestamp := now |}.
Proof.
  intros Hlt. unfold get_latest_history, insert_history.
  set (new := {| h_id := next_history_id histories; h_tree := tree; h_branch := branch;
                 h_commit_id := commit; h_timestamp := now |}).
  set (rows := filter (fun h => h_tree h = tree /\ h_branch h = branch) (app histories [new])).
  assert (Hnew : In new rows).
  { unfold rows. apply list_elem_of_In, list_elem_of_filter. split; [simpl; auto|].
    apply list_elem_of_In, in_or_app. right. left. reflexivity. }
  destruct (max_timestamp_spec rows) as [Hnone Hsome].
  destruct (max_timestamp rows) as [m|] eqn:Hm.
  - destruct (Hsome m eq_refl) as [[h [Hin Hh]] Hall].
    assert (Hmn : m = now).
    { pose proof (Hall new Hnew) as Hle. simpl in Hle.
      unfold rows in Hin. apply list_elem_of_In, list_elem_of_filter in Hin as [[Ht Hb] Hin].
      apply list_elem_of_In, in_app_or in Hin as [Hin|[<-|[]]]; [|simpl in Hh; lia].
      pose proof (Hlt h Hin Ht Hb). lia. }
    rewrite Hmn. cbn [mbind option_bind]. rewrite find_app.
    assert (find (fun h => bool_decide (h_tree h = tree /\ h_branch h = branch /\ h_timestamp h = now))
              histories = None) as ->.
    { apply find_none_intro. intros h' Hin'. apply bool_decide_eq_false. intros [Ht [Hb Hts]].
      pose proof (Hlt h' Hin' Ht Hb). lia. }
    simpl. rewrite bool_decide_true by auto. reflexivity.
  - exfalso. assert (Hr : rows = []) by (apply Hnone; reflexivity). rewrite Hr in Hnew. exact Hnew.
Qed.

Lemma in_insert_by_time_desc (c x : CommitRow) (l : list CommitRow) :
  In x (insert_by_time_desc c l) <-> x = c \/ In x l.
Proof.
  induction l as [|y l IH]; simpl; [intuition congruence|].
  destruct (cm_commit_time y <? cm_commit_time c)%Z; simpl; [intuition congruence|].
  rewrite IH. intuition congruence.
Qed.

Lemma in_order_by_desc_commit_time (l : list CommitRow) (x : CommitRow) :
  In x (order_by_desc_commit_time l) <-> In x l.
Proof.
  unfold order_by_desc_commit_time.
  assert (H : forall acc, In x (fold_left (fun acc c => insert_by_time_desc c acc) l acc) <->
                          In x l \/ In x acc).
  { induction l as [|c l IH]; intros acc; simpl; [tauto|].
    rewrite IH, in_insert_by_time_desc. intuition congruence. }
  rewrite H. simpl. tauto.
Qed.

Lemma index_map_insert_keys {K V} `{EqDecision K} (k : K) (v : V) (m : list (K * V)) :
  (forall k', In k' (map fst (index_map_insert k v m)) <-> k' = k \/ In k' (map fst m)) /\
  (NoDup (map fst m) -> NoDup (map fst (index_map_insert k v m))).
Proof.
  induction m as [|[k' v'] m [IH1 IH2]]; simpl.
  - split; [intros k''; intuition congruence|]. intros _. constructor; [intros []%list_elem_of_In; auto | constructor].
  - destruct (decide (k = k')) as [->|Hne]; simpl.
    + split; [intros k''; simpl; intuition congruence | intros H; exact H].
    + split.
      * intros k''. rewrite IH1. intuition congruence.
      * intros Hnd. apply NoDup_cons in Hnd as [Hnot Hnd]. constructor; [|apply IH2, Hnd].
        rewrite list_elem_of_In, IH1. rewrite list_elem_of_In in Hnot. intros [->|H]; auto.
Qed.

Lemma oid_from_str_ok' (s o : string) : oid_from_str s = Ok o -> o = s.
Proof. unfold oid_from_str. destruct (_ && _); congruence. Qed.

Lemma commit_map_spec (v : list CommitRow) (m : list (oid * (string * string * string))) :
  (forall m', commit_map v m = Ok m' ->
     (NoDup (map fst m) -> NoDup (map fst m')) /\
     forall k, In k (map fst m') <-> In k (map fst m) \/ exists c, In c v /\ cm_commit_id c = k) /\
  ((exists e, commit_map v m = Err e) <->
     exists c e, In c v /\ oid_from_str (cm_commit_id c) = Err e).
Proof.
  revert m. induction v as [|c v IH]; intros m; simpl.
  - split.
    + intros m' [= <-]. split; [tauto|]. intros k. split; [tauto|]. intros [H|[c [[] _]]]. exact H.
    + split; [intros [e [=]] | intros [c [e [[] _]]]].
  - destruct (oid_from_str (cm_commit_id c)) as [o|e] eqn:Ho.
    + apply oid_from_str_ok' in Ho as Hoc.
      destruct (IH (index_map_insert o (cm_pkg_version c, cm_spec_path c, cm_defines_path c) m))
        as [IHok IHerr].
      destruct (index_map_insert_keys o (cm_pkg_version c, cm_spec_path c, cm_defines_path c) m)
        as [Hk Hnd].
      split.
      * intros m' Hrun. destruct (IHok m' Hrun) as [Hnd' Hk']. split; [auto|].
        intros k. rewrite Hk', Hk. split.
        -- intros [[->|H]|[c' [Hin Hc']]]; [right; exists c; subst; auto | left; exact H |].
           right. exists c'. auto.
        -- intros [H|[c' [[<-|Hin] Hc']]]; [left; right; exact H | left; left; congruence |].
           right. exists c'. auto.
      * rewrite IHerr. split.
        -- intros [c' [e [Hin He]]]. exists c', e. auto.
        -- intros [c' [e [[<-|Hin] He]]]; [congruence|]. exists c', e. auto.
    + split.
      * intros m' [=].
      * split; [intros _; exists c, e; auto | intros _; exists e; reflexivity].
Qed.

(** [get_commits_by_packages] returns each commit id at most once: the
    ids it lists are exactly those of the package's rows for the (tree,
    branch); it fails exactly when one of those rows holds an id that is
    not an object id. *)
Theorem get_commits_by_packages_distinct (commits : list CommitRow) (tree branch pkg_name : string) :
  (forall l, get_commits_by_packages commits tree branch pkg_name = Ok l ->
     NoDup (map (fun '(k, _, _, _) => k) l) /\
     forall k, In k (map (fun '(k, _, _, _) => k) l) <->
       exists c, In c commits /\ cm_pkg_name c = pkg_name /\ cm_tree c = tree /\
                 cm_branch c = branch /\ cm_commit_id c = k) /\
  ((exists e, get_commits_by_packages commits tree branch pkg_name = Err e) <->
     exists c e, In c commits /\ cm_pkg_name c = pkg_name /\ cm_tree c = tree /\
                 cm_branch c = branch /\ oid_from_str (cm_commit_id c) = Err e).
Proof.
  unfold get_commits_by_packages.
  set (v := order_by_desc_commit_time _).
  assert (Hv : forall c, In c v <-> In c commits /\ cm_pkg_name c = pkg_name /\ cm_tree c = tree /\
                                     cm_branch c = branch).
  { intros c. unfold v. rewrite in_order_by_desc_commit_time, <- list_elem_of_In,
      list_elem_of_filter, list_elem_of_In. tauto. }
  destruct (commit_map_spec v []) as [Hok Herr].
  assert (Hkeys : forall m : list (oid * (string * string * string)),
            map (fun '(k, _, _, _) => k) (map (fun '(k, (a, b, c)) => (k, a, b, c)) m) = map fst m).
  { intros m. rewrite map_map. apply map_ext. intros [k [[a b] c]]. reflexivity. }
  destruct (commit_map v []) as [m|e] eqn:Hrun.
  - split.
    + intros l [= <-]. rewrite Hkeys. destruct (Hok m eq_refl) as [Hnd Hk].
      split; [apply Hnd; constructor|]. intros k. rewrite Hk. simpl. split.
      * intros [[]|[c [Hin Hc]]]. exists c. apply Hv in Hin. tauto.
      * intros [c Hc]. right. exists c. rewrite Hv. tauto.
    + split; [intros [e [=]]|]. intros [c [e [Hin He]]].
      exfalso. assert (Hx : exists e, @Ok _ string m = Err e).
      { apply Herr. exists c, e. split; [apply Hv; tauto | tauto]. }
      destruct Hx as [? [=]].
  - split; [intros l [=]|]. split.
    + intros _. destruct (proj1 Herr (ex_intro _ e eq_refl)) as [c [e' [Hin He]]].
      exists c, e'. apply Hv in Hin. tauto.
    + intros _. exists e. reflexivity.
Qed.

Lemma elem_of_delete_where {R} (p : R -> bool) (tbl : list R) (r : R) :
  r ∈ delete_where p tbl <-> r ∈ tbl /\ p r = false.
Proof. unfold delete_where. rewrite list_elem_of_filter. tauto. Qed.

Lemma delete_package_run (self : AbbsDb) (n : string) (st : AbbsTables) :
  delete_package self n st = Ok (tt,
    {| packages := delete_where (fun r => bool_decide (p_name r = n /\ p_tree r = db_tree self)) (packages st);
       package_duplicate := package_duplicate st;
       fts_packages := delete_where (fun r => bool_decide (f_name r = n)) (fts_packages st);
       package_changes := package_changes st;
       package_versions := delete_where (fun r => bool_decide (v_package r = n /\ v_branch r = db_branch self)) (package_versions st);
       package_spec := delete_where (fun r => bool_decide (s_package r = n)) (package_spec st);
       package_dependencies := delete_where (fun r => bool_decide (dp_package r = n)) (package_dependencies st);
       package_errors := delete_where (fun r => bool_decide (er_package r = n /\ er_tree r = db_tree self /\ er_branch r = db_branch self)) (package_errors st);
       package_testing := delete_where (fun r => bool_decide (pt_package r = n /\ pt_tree r = db_tree self /\ pt_branch r = db_branch self)) (package_testing st) |}).
Proof. reflexivity. Qed.

(** [delete_packages] always succeeds.  Afterwards the names of the tree
    are the old ones minus [pkg_names]; no spec, dependency or search row
    of a deleted name is left, in any tree; rows of other trees in
    [packages] stay; the change log and the duplicate table are never
    touched. *)
Theorem delete_packages_effect (self : AbbsDb) (names : list string) (st : AbbsTables) :
  exists st', delete_packages self names st = Ok (tt, st') /\
    (forall x, x ∈ get_packages_name self st' <-> x ∈ get_packages_name self st /\ x ∉ names) /\
    (forall r, r ∈ packages st' <-> r ∈ packages st /\ (p_tree r <> db_tree self \/ p_name r ∉ names)) /\
    (forall r, r ∈ package_spec st' <-> r ∈ package_spec st /\ s_package r ∉ names) /\
    (forall r, r ∈ package_dependencies st' <-> r ∈ package_dependencies st /\ dp_package r ∉ names) /\
    (forall r, r ∈ fts_packages st' <-> r ∈ fts_packages st /\ f_name r ∉ names) /\
    package_changes st' = package_changes st /\
    package_duplicate st' = package_duplicate st.
Proof.
  revert st. induction names as [|n names IH]; intros st.
  - exists st. simpl. split; [reflexivity|].
    repeat split; try reflexivity; try tauto; try set_solver. all: right; set_solver.
  - pose proof (delete_package_run self n st) as Hdp.
    match type of Hdp with _ = Ok (_, ?s) =>
      destruct (IH s) as [st' [Hrun [Hn [Hp [Hs [Hd [Hf [Hc Hdup]]]]]]]] end.
    exists st'. simpl. unfold bindM at 1. rewrite Hdp. split; [exact Hrun|].
    cbn [packages package_spec package_dependencies fts_packages package_changes
         package_duplicate] in *.
    refine (conj _ (conj _ (conj _ (conj _ (conj _ (conj _ _)))))); try assumption;
      intros y; split.
    + intros Hx. apply Hn in Hx as [Hx Hnot].
      unfold get_packages_name in Hx |- *. simpl in Hx.
      apply list_elem_of_fmap in Hx as [r [-> Hr]].
      apply list_elem_of_filter in Hr as [Htr Hr].
      apply elem_of_delete_where in Hr as [Hr Hb]. apply bool_decide_eq_false in Hb.
      split.
      * apply list_elem_of_fmap. exists r. split; [reflexivity|]. apply list_elem_of_filter. auto.
      * rewrite elem_of_cons. intros [Heq|Hin]; [tauto | exact (Hnot Hin)].
    + intros [Hx Hnot]. apply Hn. split; [|set_solver].
      unfold get_packages_name in Hx |- *. simpl.
      apply list_elem_of_fmap in Hx as [r [-> Hr]].
      apply list_elem_of_filter in Hr as [Htr Hr].
      apply list_elem_of_fmap. exists r. split; [reflexivity|]. apply list_elem_of_filter.
      split; [exact Htr|]. apply elem_of_delete_where. split; [exact Hr|].
      apply bool_decide_eq_false. set_solver.
    + intros Hr. apply Hp in Hr as [Hr Ho]. apply elem_of_delete_where in Hr as [Hr Hb].
      apply bool_decide_eq_false in Hb. split; [exact Hr|].
      destruct (decide (p_tree y = db_tree self)) as [Ht|Ht]; [right|left; exact Ht].
      destruct Ho as [Ho|Ho]; [contradiction|]. rewrite elem_of_cons. intros [Heq|Hin]; [tauto|auto].
    + intros [Hr Ho]. apply Hp. split; [|destruct Ho as [Ho|Ho]; [left; exact Ho | right; set_solver]].
      apply elem_of_delete_where. split; [exact Hr|]. apply bool_decide_eq_false.
      destruct Ho as [Ho|Ho]; [tauto | set_solver].
    + intros Hr. apply Hs in Hr as [Hr Ho]. apply elem_of_delete_where in Hr as [Hr Hb].
      apply bool_decide_eq_false in Hb. set_solver.
    + intros [Hr Ho]. apply Hs. split; [|set_solver]. apply elem_of_delete_where.
      split; [exact Hr|]. apply bool_decide_eq_false. set_solver.
    + intros Hr. apply Hd in Hr as [Hr Ho]. apply elem_of_delete_where in Hr as [Hr Hb].
      apply bool_decide_eq_false in Hb. set_solver.
    + intros [Hr Ho]. apply Hd. split; [|set_solver]. apply elem_of_delete_where.
      split; [exact Hr|]. apply bool_decide_eq_false. set_solver.
    + intros Hr. apply Hf in Hr as [Hr Ho]. apply elem_of_delete_where in Hr as [Hr Hb].
      apply bool_decide_eq_false in Hb. set_solver.
    + intros [Hr Ho]. apply Hf. split; [|set_solver]. apply elem_of_delete_where.
      split; [exact Hr|]. apply bool_decide_eq_false. set_solver.
Qed.

Lemma add_dependencies_run (pkgdep : PkgDep) (rel n : string) (st : AbbsTables) :
  add_dependencies pkgdep rel n st =
  Ok (tt, set_dependencies (fun tbl =>
            fold_left (fun acc r => upsert dependency_key r acc) (dep_rows pkgdep rel n) tbl) st).
Proof.
  unfold add_dependencies, modifyM, set_dependencies. do 3 f_equal.
  generalize (package_dependencies st) as tbl.
  induction pkgdep as [|[arch v] pkgdep IH]; intros tbl; simpl; [reflexivity|].
  rewrite fold_left_app. rewrite <- IH. f_equal.
  generalize tbl. induction v as [|[[d r] ver] v IHv]; intros t; simpl; [reflexivity|].
  apply IHv.
Qed.

Lemma ok_state_eq {A} (a b : A) (s s' : AbbsTables) :
  @Ok _ string (a, s) = Ok (b, s') -> s = s'.
Proof. intros H. injection H as _ H. exact H. Qed.

Ltac run_txn H :=
  revert H; unfold add_package_txn;
  repeat progress (
    cbv beta iota zeta delta [bindM getM modifyM retM failM replace_many update_duplicate map];
    rewrite ?add_dependencies_run;
    try first [ match goal with |- context [find_one ?p ?t] => destruct (find_one p t) eqn:? end
              | match goal with |- context [decide ?P] => destruct (decide P) end
              | match goal with |- context [map_to_list ?c] => destruct (map_to_list c) eqn:? end ]);
  try discriminate; intros H; apply ok_state_eq in H; subst.

Ltac proj_tables :=
  cbn [packages package_duplicate fts_packages package_changes package_versions package_spec
       package_dependencies package_errors package_testing
       set_packages set_duplicate set_fts set_changes set_versions set_spec
       set_dependencies set_errors set_testing] in *.

Lemma add_package_txn_deps (self : AbbsDb) (pkg : Package) (context : Context)
    (errors : list PackageError) (pkg_changes : list Change) (st st' : AbbsTables) :
  add_package_txn self (pkg, context, errors) pkg_changes st = Ok (tt, st') ->
  package_dependencies st' =
    fold_left (fun acc r => upsert dependency_key r acc) (package_dep_rows pkg)
      (delete_where (fun r => bool_decide (dp_package r = pkg_name pkg)) (package_dependencies st)).
Proof.
  destruct pkg_changes, errors; intros H; run_txn H. all: proj_tables; unfold package_dep_rows; rewrite !fold_left_app; reflexivity.
Qed.

Lemma add_package_txn_packages (self : AbbsDb) (pkg : Package) (context : Context)
    (errors : list PackageError) (pkg_changes : list Change) (st st' : AbbsTables) :
  add_package_txn self (pkg, context, errors) pkg_changes st = Ok (tt, st') ->
  packages st' = upsert package_key
    {| p_name := pkg_name pkg; p_tree := db_tree self; p_category := pkg_category pkg;
       p_section := pkg_section pkg; p_pkg_section := pkg_pkg_section pkg;
       p_directory := pkg_directory pkg; p_description := pkg_description pkg;
       p_spec_path := pkg_spec_path pkg |} (packages st).
Proof. destruct pkg_changes, errors; intros H; run_txn H. all: proj_tables; reflexivity. Qed.

Lemma add_package_txn_versions (self : AbbsDb) (pkg : Package) (context : Context)
    (errors : list PackageError) (first : Change) (rest : list Change) (st st' : AbbsTables) :
  add_package_txn self (pkg, context, errors) (first :: rest) st = Ok (tt, st') ->
  package_versions st' = upsert version_key
    {| v_package := pkg_name pkg; v_branch := db_branch self; v_architecture := "";
       v_version := pkg_version pkg; v_release := nonzero_to_string (pkg_release pkg);
       v_epoch := nonzero_to_string (pkg_epoch pkg); v_commit_time := ch_timestamp first;
       v_committer := ch_maintainer_name first ++ " <" ++ ch_maintainer_email first ++ ">";
       v_githash := ch_githash first |} (package_versions st).
Proof. destruct errors; intros H; run_txn H. all: proj_tables; reflexivity. Qed.

Lemma add_package_txn_fts (self : AbbsDb) (pkg : Package) (context : Context)
    (errors : list PackageError) (pkg_changes : list Change) (st st' : AbbsTables) :
  add_package_txn self (pkg, context, errors) pkg_changes st = Ok (tt, st') ->
  lookup_row fts_key (pkg_name pkg) (fts_packages st') =
    Some {| f_name := pkg_name pkg; f_description := pkg_description pkg |}.
Proof.
  destruct pkg_changes, errors; intros H; run_txn H. all: proj_tables.
  all: try (apply (lookup_row_upsert_eq fts_key {| f_name := pkg_name pkg;
                                                f_description := pkg_description pkg |})).
  all: match goal with
       | E : find_one _ _ = Some ?res, D : ¬ (f_description ?res ≠ _) |- _ =>
           pose proof E as E'; apply find_some in E' as [_ E'];
           apply bool_decide_eq_true in E';
           destruct res as [fn fd]; simpl in *; subst fn;
           destruct (decide (fd = pkg_description pkg)) as [->|Hne]; [exact E | tauto]
       end.
Qed.

Section FoldUpsert.
Context {R K : Type} `{EqDecision K} (key : R -> K).

(** A multi-row upsert in general: a row survives when it was stored and
    no written row has its key, or when it is the last written row of its
    key. *)
Lemma elem_of_fold_upsert_last (rows tbl : list R) (x : R) :
  In x (fold_left (fun acc r => upsert key r acc) rows tbl) <->
  (In x tbl /\ forall r, In r rows -> key x <> key r) \/
  exists l1 l2, rows = (l1 ++ x :: l2)%list /\ forall r', In r' l2 -> key r' <> key x.
Proof.
  revert tbl. induction rows as [|r rows IH]; intros tbl; simpl.
  - split.
    + intros Hin. left. split; [exact Hin | intros ? []].
    + intros [[Hin _]|[l1 [l2 [Hl _]]]]; [exact Hin|]. destruct l1; discriminate.
  - rewrite IH, elem_of_upsert. split.
    + intros [[[->|[Hin Hk]] Hall]|[l1 [l2 [Hl Hall]]]].
      * right. exists [], rows. split; [reflexivity|]. intros r' Hr' Hk. exact (Hall r' Hr' (eq_sym Hk)).
      * left. split; [exact Hin|]. intros r' [<-|Hr']; [exact Hk | exact (Hall r' Hr')].
      * right. exists (r :: l1), l2. split; [rewrite Hl; reflexivity | exact Hall].
    + intros [[Hin Hall]|[l1 [l2 [Hl Hall]]]].
      * left. split; [right; split; [exact Hin | apply Hall; left; reflexivity]|].
        intros r' Hr'. apply Hall. right. exact Hr'.
      * destruct l1 as [|r0 l1]; simpl in Hl; injection Hl as Hr Hl.
        -- subst r rows. left. split; [left; reflexivity|].
           intros r' Hr' Hk. exact (Hall r' Hr' (eq_sym Hk)).
        -- subst r0. right. exists l1, l2. auto.
Qed.

End FoldUpsert.

Lemma in_dep_rows (pkgdep : PkgDep) (rel n : string) (r : DependencyRow) :
  In r (dep_rows pkgdep rel n) ->
  dp_package r = n /\ dp_relationship r = rel /\ dp_architecture r <> "default".
Proof.
  unfold dep_rows. rewrite in_flat_map. intros [[a v] [_ Hin]].
  apply in_map_iff in Hin as [[[d ro] ve] [<- _]]. simpl.
  split; [reflexivity|]. split; [reflexivity|].
  destruct (decide (a = "default")) as [_|Ha]; [discriminate | exact Ha].
Qed.

Lemma in_package_dep_rows (pkg : Package) (r : DependencyRow) :
  In r (package_dep_rows pkg) -> dp_package r = pkg_name pkg /\ dp_architecture r <> "default".
Proof.
  unfold package_dep_rows. rewrite !in_app_iff.
  intros Hin. repeat destruct Hin as [Hin|Hin]; apply in_dep_rows in Hin; tauto.
Qed.

(** After a committed [add_package], the dependency rows of the package
    are the rows built from its eight dependency lists, one per
    [(package, dependency, architecture, relationship)] key, the last
    listed one winning; rows of other packages are kept as they were; and
    no stored row of the package has the architecture ["default"]. *)
Theorem add_package_dependency_rows (self : AbbsDb) (pkg : Package) (context : Context)
    (errors : list PackageError) (pkg_changes : list Change) (st st' : AbbsTables) :
  add_package self (pkg, context, errors) pkg_changes st = (Ok tt, st') ->
  (forall r, (In r (package_dependencies st') /\ dp_package r = pkg_name pkg) <->
     exists l1 l2, package_dep_rows pkg = (l1 ++ r :: l2)%list /\
       forall r', In r' l2 -> dependency_key r' <> dependency_key r) /\
  (forall r, dp_package r <> pkg_name pkg ->
     (In r (package_dependencies st') <-> In r (package_dependencies st))) /\
  (forall r, In r (package_dependencies st') -> dp_package r = pkg_name pkg ->
     dp_architecture r <> "default").
Proof.
  intros Hrun. apply transaction_ok, add_package_txn_deps in Hrun. rewrite Hrun.
  assert (Hdel : forall r, In r (delete_where (fun r => bool_decide (dp_package r = pkg_name pkg))
                                    (package_dependencies st)) <->
                           In r (package_dependencies st) /\ dp_package r <> pkg_name pkg).
  { intros r. unfold delete_where. rewrite <- list_elem_of_In, list_elem_of_filter, list_elem_of_In.
    rewrite bool_decide_eq_false. tauto. }
  assert (Hmid : forall r l1 l2, package_dep_rows pkg = (l1 ++ r :: l2)%list ->
                   In r (package_dep_rows pkg)).
  { intros r l1 l2 ->. apply in_app_iff. right. left. reflexivity. }
  split; [|split].
  - intros r. rewrite elem_of_fold_upsert_last, Hdel. split.
    + intros [[[[_ Hn] _]|Hlast] Hp]; [contradiction | exact Hlast].
    + intros [l1 [l2 [Hl Hall]]]. split; [right; exists l1, l2; auto|].
      apply (in_package_dep_rows pkg r). exact (Hmid r l1 l2 Hl).
  - intros r Hn. rewrite elem_of_fold_upsert_last, Hdel. split.
    + intros [[[Hin _] _]|[l1 [l2 [Hl _]]]]; [exact Hin|].
      exfalso. apply Hn. apply (in_package_dep_rows pkg r). exact (Hmid r l1 l2 Hl).
    + intros Hin. left. split; [split; assumption|].
      intros r' Hr' Hk. apply Hn. apply in_package_dep_rows in Hr' as [Hp' _].
      unfold dependency_key in Hk. injection Hk as Hk _ _ _. congruence.
  - intros r Hin Hp. apply elem_of_fold_upsert_last in Hin as [[Hin _]|[l1 [l2 [Hl _]]]].
    + apply Hdel in Hin as [_ Hn]. contradiction.
    + apply (in_package_dep_rows pkg r). exact (Hmid r l1 l2 Hl).
Qed.

(** After a committed [add_package], the [packages] row of the name is
    the one built from the package and this tree, rows of other names are
    untouched, the name is listed by [get_packages_name], the search row
    of the name holds the package's description, and the version row of
    [(name, branch, "")] is built from the first change of the list. *)
Theorem add_package_rows (self : AbbsDb) (pkg : Package) (context : Context)
    (errors : list PackageError) (pkg_changes : list Change) (st st' : AbbsTables) :
  add_package self (pkg, context, errors) pkg_changes st = (Ok tt, st') ->
  exists first rest, pkg_changes = first :: rest /\
  lookup_row package_key (pkg_name pkg) (packages st') =
    Some {| p_name := pkg_name pkg; p_tree := db_tree self; p_category := pkg_category pkg;
            p_section := pkg_section pkg; p_pkg_section := pkg_pkg_section pkg;
            p_directory := pkg_directory pkg; p_description := pkg_description pkg;
            p_spec_path := pkg_spec_path pkg |} /\
  (forall n, n <> pkg_name pkg ->
     lookup_row package_key n (packages st') = lookup_row package_key n (packages st)) /\
  In (pkg_name pkg) (get_packages_name self st') /\
  lookup_row fts_key (pkg_name pkg) (fts_packages st') =
    Some {| f_name := pkg_name pkg; f_description := pkg_description pkg |} /\
  lookup_row version_key (pkg_name pkg, db_branch self, "") (package_versions st') =
    Some {| v_package := pkg_name pkg; v_branch := db_branch self; v_architecture := "";
            v_version := pkg_version pkg; v_release := nonzero_to_string (pkg_release pkg);
            v_epoch := nonzero_to_string (pkg_epoch pkg); v_commit_time := ch_timestamp first;
            v_committer := ch_maintainer_name first ++ " <" ++ ch_maintainer_email first ++ ">";
            v_githash := ch_githash first |}.
Proof.
  intros Hrun. apply transaction_ok in Hrun.
  destruct pkg_changes as [|first rest]; [discriminate|].
  exists first, rest. split; [reflexivity|].
  pose proof (add_package_txn_packages _ _ _ _ _ _ _ Hrun) as Hp.
  pose proof (add_package_txn_fts _ _ _ _ _ _ _ Hrun) as Hf.
  pose proof (add_package_txn_versions _ _ _ _ _ _ _ _ Hrun) as Hv.
  split; [|split; [|split; [|split]]].
  - rewrite Hp. match goal with |- lookup_row _ _ (upsert _ ?r ?t) = _ =>
      exact (lookup_row_upsert_eq package_key r t) end.
  - intros n Hn. rewrite Hp. apply lookup_row_upsert_ne. exact Hn.
  - unfold get_packages_name. rewrite Hp. apply list_elem_of_In.
    apply list_elem_of_fmap. eexists. split; [|apply list_elem_of_filter; split;
      [|apply list_elem_of_In, elem_of_upsert; left; reflexivity]]; reflexivity.
  - exact Hf.
  - rewrite Hv. match goal with |- lookup_row _ _ (upsert _ ?r ?t) = _ =>
      exact (lookup_row_upsert_eq version_key r t) end.
Qed.





(** [add_package] rejects a package without changes, and a package whose
    context is empty (its spec rows would be an insert of no rows); in both
    cases the transaction is rolled back and no table changes. *)
Theorem add_package_rejects (self : AbbsDb) (pkg : Package) (context : Context)
    (errors : list PackageError) (first : Change) (rest : list Change) (st : AbbsTables) :
  add_package self (pkg, context, errors) [] st =
    (Err "cannot find changes of package, please update commit database", st) /\
  add_package self (pkg, ∅, errors) (first :: rest) st =
    (Err "None of the records are inserted", st).
Proof.
  split; [reflexivity|].
  unfold add_package, transaction.
  enough (H : add_package_txn self (pkg, ∅, errors) (first :: rest) st =
              Err "None of the records are inserted") by (rewrite H; reflexivity).
  unfold add_package_txn.
  repeat progress (
    cbv beta iota zeta delta [bindM getM modifyM retM failM replace_many update_duplicate map];
    rewrite ?map_to_list_empty;
    try first [ match goal with |- context [find_one ?p ?t] => destruct (find_one p t) eqn:? end
              | match goal with |- context [decide ?P] => destruct (decide P) end ]).
  all: reflexivity.
Qed.

Lemma divergence_fold_spec (main : gmap oid nat) (l : list (oid * nat)) (acc : option (nat * nat)) :
  match fold_left (divergence_step main) l acc with
  | None => acc = None /\ forall k o, In (k, o) l -> main !! k = None
  | Some (mo, o) =>
      (acc = Some (mo, o) \/ exists k, In (k, o) l /\ main !! k = Some mo) /\
      (forall k o' mo', In (k, o') l -> main !! k = Some mo' -> mo' <= mo) /\
      (forall ma oa, acc = Some (ma, oa) -> ma <= mo)
  end.
Proof.
  revert acc. induction l as [|[k o] l IH]; intros acc; cbn [fold_left In].
  - destruct acc as [[mo o]|].
    + split; [left; reflexivity|]. split; [intros ? ? ? []|]. intros ma oa [= -> ->]. lia.
    + split; [reflexivity | intros ? ? []].
  - specialize (IH (divergence_step main acc (k, o))).
    destruct (fold_left (divergence_step main) l (divergence_step main acc (k, o)))
      as [[mo o1]|] eqn:Hf.
    + destruct IH as [Hsrc [Hmax Hacc]]. unfold divergence_step in Hsrc, Hacc.
      destruct (main !! k) as [mk|] eqn:Hk.
      * destruct acc as [[ma oa]|].
        -- destruct (Nat.leb ma mk) eqn:Hle; simpl in Hsrc, Hacc;
             [apply Nat.leb_le in Hle | apply Nat.leb_gt in Hle].
           ++ split; [destruct Hsrc as [[= <- <-]|[k' [Hin Hk']]];
                        [right; exists k; auto | right; exists k'; auto]|].
              specialize (Hacc mk o eq_refl). split.
              ** intros k' o' mo' [[= <- <-]|Hin] Hk'; [congruence | exact (Hmax k' o' mo' Hin Hk')].
              ** intros ma' oa' [= <- <-]. lia.
           ++ split; [destruct Hsrc as [Hs|[k' [Hin Hk']]]; [left; exact Hs | right; exists k'; auto]|].
              specialize (Hacc ma oa eq_refl). split.
              ** intros k' o' mo' [[= <- <-]|Hin] Hk'; [rewrite Hk in Hk'; injection Hk' as <-; lia
                                                     | exact (Hmax k' o' mo' Hin Hk')].
              ** intros ma' oa' [= <- <-]. exact Hacc.
        -- simpl in Hsrc, Hacc. split; [destruct Hsrc as [[= <- <-]|[k' [Hin Hk']]];
                     [right; exists k; auto | right; exists k'; auto]|].
           specialize (Hacc mk o eq_refl). split.
           ++ intros k' o' mo' [[= <- <-]|Hin] Hk'; [congruence | exact (Hmax k' o' mo' Hin Hk')].
           ++ intros ? ? [=].
      * simpl in Hsrc, Hacc.
        split; [destruct Hsrc as [Hs|[k' [Hin Hk']]]; [left; exact Hs | right; exists k'; auto]|].
        split; [|exact Hacc].
        intros k' o' mo' [[= <- <-]|Hin] Hk'; [congruence | exact (Hmax k' o' mo' Hin Hk')].
    + destruct IH as [Hnone Hall]. unfold divergence_step in Hnone.
      destruct (main !! k) as [mk|] eqn:Hk.
      * destruct acc as [[ma oa]|]; [destruct (Nat.leb ma mk)|]; discriminate.
      * split; [exact Hnone|]. intros k' o' [[= <- <-]|Hin]; [exact Hk | exact (Hall k' o' Hin)].
Qed.

(** [last] of [update_testing_branch]: there is none exactly when the
    testing branch shares no commit with the main branch; otherwise it is
    the testing order of a common commit whose main-branch order is the
    largest of all common commits. *)
Theorem divergence_last_spec (main testing : gmap oid nat) :
  (divergence_last main testing = None <->
     forall oid, is_Some (testing !! oid) -> main !! oid = None) /\
  (forall last, divergence_last main testing = Some last ->
     exists oid mo, testing !! oid = Some last /\ main !! oid = Some mo /\
       forall oid' o' mo', testing !! oid' = Some o' -> main !! oid' = Some mo' -> mo' <= mo).
Proof.
  unfold divergence_last.
  pose proof (divergence_fold_spec main (map_to_list testing) None) as Hs.
  change (fold_left (fun acc '(oid, order) => match main !! oid with
            | None => acc
            | Some mo => match acc with
                         | Some (mo', _) => if Nat.leb mo' mo then Some (mo, order) else acc
                         | None => Some (mo, order) end end) (map_to_list testing) None)
    with (fold_left (divergence_step main) (map_to_list testing) None).
  destruct (fold_left (divergence_step main) (map_to_list testing) None) as [[mo o]|]; simpl.
  - destruct Hs as [[Hs|[k [Hin Hk]]] [Hmax _]]; [discriminate|]. split.
    + split; [discriminate|]. intros Hall. exfalso.
      assert (Ht : testing !! k = Some o) by (apply elem_of_map_to_list, list_elem_of_In; exact Hin).
      rewrite (Hall k (ex_intro _ o Ht)) in Hk. discriminate.
    + intros last [= <-]. exists k, mo. split; [apply elem_of_map_to_list, list_elem_of_In; exact Hin|].
      split; [exact Hk|]. intros oid' o' mo' Ht Hm. apply (Hmax oid' o' mo'); [|exact Hm].
      apply list_elem_of_In, elem_of_map_to_list. exact Ht.
  - destruct Hs as [_ Hall]. split.
    + split; [|reflexivity]. intros _ oid [o Ho]. apply (Hall oid o).
      apply list_elem_of_In, elem_of_map_to_list. exact Ho.
    + intros last [=].
Qed.

Lemma in_delete_where {R} (p : R -> bool) (tbl : list R) (r : R) :
  In r (delete_where p tbl) <-> In r tbl /\ p r = false.
Proof. unfold delete_where. rewrite <- list_elem_of_In, list_elem_of_filter, list_elem_of_In. tauto. Qed.

Lemma testing_step_other_tree (tree branch : string) (testing : gmap oid nat) (last : nat)
    (tbl : list TestingRow) (info : CommitInfo) (r : TestingRow) :
  pt_tree r <> tree -> (In r (testing_step tree branch testing last tbl info) <-> In r tbl).
Proof.
  intros Ht. unfold testing_step.
  destruct (testing !! ci_commit_id info) as [n|]; [|reflexivity].
  destruct (_ && _); [|destruct (_ && _)].
  - rewrite elem_of_upsert. split; [|intros Hin; right; split; [exact Hin|]].
    + intros [->|[Hin _]]; [simpl in Ht; contradiction | exact Hin].
    + unfold testing_key. simpl. intros [= _ Heq _]. contradiction.
  - unfold delete_where. rewrite <- list_elem_of_In, list_elem_of_filter, list_elem_of_In.
    rewrite bool_decide_eq_false. unfold testing_key. split; [tauto|].
    intros Hin. split; [|exact Hin]. intros [= _ Heq _]. contradiction.
  - reflexivity.
Qed.

Lemma testing_fold_other_tree (tree branch : string) (testing : gmap oid nat) (last : nat)
    (infos : list CommitInfo) (tbl : list TestingRow) (r : TestingRow) :
  pt_tree r <> tree ->
  (In r (fold_left (testing_step tree branch testing last) infos tbl) <-> In r tbl).
Proof.
  intros Ht. revert tbl. induction infos as [|info infos IH]; intros tbl; simpl; [reflexivity|].
  rewrite IH. apply testing_step_other_tree. exact Ht.
Qed.

Lemma testing_branches_fold (repo_tree : string) (main : gmap oid nat)
    (scan : string -> gmap oid nat) (result : list (string * list CommitInfo))
    (tbl : list TestingRow) (outdated : list string) :
  let '(tbl', outdated') :=
    fold_left (fun '(tbl, outdated) '(branch, info) =>
                 match update_testing_for_branch repo_tree branch main (scan branch) info tbl with
                 | Some tbl' => (tbl', outdated)
                 | None => (tbl, app outdated [branch])
                 end) result (tbl, outdated) in
  (forall r, pt_tree r <> repo_tree -> (In r tbl' <-> In r tbl)) /\
  (forall b, In b outdated' <->
     In b outdated \/ exists info, In (b, info) result /\ divergence_last main (scan b) = None).
Proof.
  revert tbl outdated. induction result as [|[branch info] result IH]; intros tbl outdated; simpl.
  - split; [reflexivity|]. intros b. split; [tauto|]. intros [Hb|[? [[] _]]]. exact Hb.
  - destruct (update_testing_for_branch repo_tree branch main (scan branch) info tbl)
      as [tbl1|] eqn:Hu; unfold update_testing_for_branch in Hu;
      destruct (divergence_last main (scan branch)) as [last|] eqn:Hd; simpl in Hu;
      try discriminate Hu.
    + injection Hu as <-.
      specialize (IH (fold_left (testing_step repo_tree branch (scan branch) last) info tbl) outdated).
      match goal with |- context [fold_left ?f result ?a] =>
        destruct (fold_left f result a) as [tbl' outdated'] end.
      destruct IH as [Hr Hb]. split.
      * intros r Ht. rewrite Hr by exact Ht. apply testing_fold_other_tree. exact Ht.
      * intros b. rewrite Hb. split.
        -- intros [Hin|[info' [Hin Hn]]]; [left; exact Hin | right; exists info'; auto].
        -- intros [Hin|[info' [[[= <- <-]|Hin] Hn]]]; [left; exact Hin | congruence |].
           right. exists info'. auto.
    + specialize (IH tbl (app outdated [branch])).
      match goal with |- context [fold_left ?f result ?a] =>
        destruct (fold_left f result a) as [tbl' outdated'] end.
      destruct IH as [Hr Hb]. split.
      * exact Hr.
      * intros b. rewrite Hb, in_app_iff. simpl. split.
        -- intros [[Hin|[<-|[]]]|[info' [Hin Hn]]]; [left; exact Hin | | ].
           ++ right. exists info. auto.
           ++ right. exists info'. auto.
        -- intros [Hin|[info' [[[= <- <-]|Hin] Hn]]]; [left; left; exact Hin | left; right; left; reflexivity |].
           right. exists info'. auto.
Qed.

(** After [update_testing_branch], every testing row of the repository's
    tree belongs to a branch that still exists and that shares a commit
    with the main branch; rows of other trees are exactly the rows stored
    before. *)
Theorem update_testing_branch_cleanup (repo_tree : string) (main : gmap oid nat)
    (scan : string -> gmap oid nat) (result : list (string * list CommitInfo))
    (current_branches : list string) (tbl : list TestingRow) :
  (forall r, In r (update_testing_branch repo_tree main scan result current_branches tbl) ->
     pt_tree r = repo_tree ->
     In (pt_branch r) current_branches /\
     forall info, In (pt_branch r, info) result -> divergence_last main (scan (pt_branch r)) <> None) /\
  (forall r, pt_tree r <> repo_tree ->
     (In r (update_testing_branch repo_tree main scan result current_branches tbl) <-> In r tbl)).
Proof.
  unfold update_testing_branch.
  pose proof (testing_branches_fold repo_tree main scan result tbl []) as Hf.
  destruct (fold_left _ result (tbl, [])) as [tbl' outdated]. destruct Hf as [Hr Hb].
  split.
  - intros r Hin Ht. rewrite !in_delete_where in Hin.
    destruct Hin as [[_ H1] H2]. apply bool_decide_eq_false in H1, H2. split.
    + apply list_elem_of_In. destruct (decide (pt_branch r ∈ current_branches)); [assumption|tauto].
    + intros info Hinfo Hn. apply H2. split; [exact Ht|].
      apply list_elem_of_In, Hb. right. exists info. auto.
  - intros r Ht. rewrite !in_delete_where, (Hr r Ht), !bool_decide_eq_false. tauto.
Qed.

Lemma insert_by_timestamp_perm (h : HistoryRow) (l : list HistoryRow) :
  Permutation (insert_by_timestamp h l) (h :: l).
Proof.
  induction l as [|x l IH]; simpl; [reflexivity|].
  destruct (h_timestamp h <? h_timestamp x)%Z; [reflexivity|].
  etransitivity; [apply perm_skip, IH | apply perm_swap].
Qed.

Lemma insert_by_timestamp_sorted (h : HistoryRow) (l : list HistoryRow) :
  Sorted ts_le l -> Sorted ts_le (insert_by_timestamp h l).
Proof.
  induction l as [|x l IH]; simpl; intros Hs; [repeat constructor|].
  destruct (h_timestamp h <? h_timestamp x)%Z eqn:Hlt.
  - apply Z.ltb_lt in Hlt. constructor; [exact Hs|]. constructor. unfold ts_le. lia.
  - apply Z.ltb_ge in Hlt. apply Sorted_inv in Hs as [Hs Hhd].
    constructor; [apply IH, Hs|].
    destruct l as [|y l]; simpl; [constructor; unfold ts_le; lia|].
    destruct (h_timestamp h <? h_timestamp y)%Z; constructor; [unfold ts_le; lia|].
    inversion Hhd; assumption.
Qed.

(** [get_branch_histories] lists the history rows of the (tree, branch),
    each as often as it is stored, in ascending timestamp order. *)
Theorem get_branch_histories_sorted (histories : list HistoryRow) (tree branch : string) :
  Permutation (get_branch_histories histories tree branch)
    (filter (fun h => h_tree h = tree /\ h_branch h = branch) histories) /\
  Sorted ts_le (get_branch_histories histories tree branch).
Proof.
  unfold get_branch_histories, order_by_asc_timestamp.
  generalize (filter (fun h => h_tree h = tree /\ h_branch h = branch) histories) as l.
  intros l.
  assert (H : forall acc, Sorted ts_le acc ->
     Permutation (fold_left (fun acc h => insert_by_timestamp h acc) l acc) (rev l ++ acc)%list /\
     Sorted ts_le (fold_left (fun acc h => insert_by_timestamp h acc) l acc)).
  { induction l as [|h l IH]; intros acc Hs; simpl; [split; [reflexivity | exact Hs]|].
    destruct (IH (insert_by_timestamp h acc) (insert_by_timestamp_sorted h acc Hs)) as [Hp Hs'].
    split; [|exact Hs']. rewrite Hp, <- app_assoc. simpl.
    apply Permutation_app_head. apply insert_by_timestamp_perm. }
  destruct (H [] (Sorted_nil _)) as [Hp Hs]. split; [|exact Hs].
  rewrite Hp, app_nil_r. symmetry. apply Permutation_rev.
Qed.

(* ------------------------------------------------------------------ *)
(** ** Witnesses of the further properties *)

Lemma defines_spec_defines_roundtrip_witness :
  exists l,
    defines_path_to_spec_path (app ["extra-doc"; "jade"] ["autobuild"; "defines"]) =
      Ok (app ["extra-doc"; "jade"] ["spec"]) /\
    spec_path_to_defines_path Examples.jade_repo "c1" (app ["extra-doc"; "jade"] ["spec"]) = Ok l /\
    In (app ["extra-doc"; "jade"] ["autobuild"; "defines"]) l.
Proof.
  apply (defines_spec_defines_roundtrip Examples.jade_repo "c1" Examples.jade_commit
           ["extra-doc"; "jade"] "autobuild" (Blob "PKGNAME=jade")).
  - vm_compute. reflexivity.
  - discriminate.
  - vm_compute. reflexivity.
  - right; right; right; right; left. reflexivity.
Defined.

Lemma insert_history_latest_witness :
  (forall h, In h Examples.jade_histories -> h_tree h = "aosc-os-abbs" -> h_branch h = "stable" ->
     (h_timestamp h < 400)%Z) /\
  get_latest_history (insert_history Examples.jade_histories "aosc-os-abbs" "stable" "dd" 400)
    "aosc-os-abbs" "stable" =
    Some {| h_id := next_history_id Examples.jade_histories; h_tree := "aosc-os-abbs";
            h_branch := "stable"; h_commit_id := "dd"; h_timestamp := 400 |}.
Proof.
  assert (H : forall h, In h Examples.jade_histories -> h_tree h = "aosc-os-abbs" ->
                h_branch h = "stable" -> (h_timestamp h < 400)%Z).
  { intros h Hin _ _. simpl in Hin. destruct Hin as [<-|[<-|[<-|[]]]]; simpl; lia. }
  split; [exact H|]. apply (insert_history_latest _ _ _ _ _ H).
Defined.

Lemma add_package_rows_witness :
  let run := add_package Examples.abbs_db (Examples.jade_pkg, Examples.jade_context, [])
               [Examples.jade_change] Examples.tables_with_core_jade in
  run = (Ok tt, snd run) /\ In "jade" (get_packages_name Examples.abbs_db (snd run)).
Proof.
  cbv zeta.
  assert (H : add_package Examples.abbs_db (Examples.jade_pkg, Examples.jade_context, [])
                [Examples.jade_change] Examples.tables_with_core_jade =
              (Ok tt, snd (add_package Examples.abbs_db (Examples.jade_pkg, Examples.jade_context, [])
                [Examples.jade_change] Examples.tables_with_core_jade)))
    by (vm_compute; reflexivity).
  split; [exact H|].
  destruct (add_package_rows _ _ _ _ _ _ _ H) as (first & rest & _ & _ & _ & Hin & _).
  exact Hin.
Defined.


Lemma add_package_dependency_rows_witness :
  let run := add_package Examples.abbs_db (Examples.jade_pkg_deps, Examples.jade_context, [])
               [Examples.jade_change] Examples.tables_with_old_error in
  run = (Ok tt, snd run) /\
  In {| dp_package := "jade"; dp_dependency := "opensp"; dp_relop := None; dp_version := None;
        dp_architecture := ""; dp_relationship := "PKGDEP" |} (package_dependencies (snd run)).
Proof.
  cbv zeta.
  assert (H : add_package Examples.abbs_db (Examples.jade_pkg_deps, Examples.jade_context, [])
                [Examples.jade_change] Examples.tables_with_old_error =
              (Ok tt, snd (add_package Examples.abbs_db (Examples.jade_pkg_deps, Examples.jade_context, [])
                [Examples.jade_change] Examples.tables_with_old_error)))
    by (vm_compute; reflexivity).
  split; [exact H|].
  destruct (add_package_dependency_rows _ _ _ _ _ _ _ H) as [H1 _].
  refine (proj1 (proj2 (H1 _) _)).
  exists [], [{| dp_package := "jade"; dp_dependency := "gcc"; dp_relop := Some ">=";
                 dp_version := Some "9"; dp_architecture := "amd64";
                 dp_relationship := "BUILDDEP" |}].
  split; [vm_compute; reflexivity|].
  intros r' [<-|[]] Hk. vm_compute in Hk. discriminate.
Defined.
